(** * VibePilot: the fetch / aggregate / classify / materialize pipeline

    A shallow embedding of [main.py].  Python values are modelled as they
    are at run time: numbers are unbounded integers or binary64 floats,
    [None] is a value of its own, a dictionary with a fixed set of keys is
    a record of optional fields, and a raised exception is the [Raise]
    branch of the result type [py].  The remote service ([spotipy.Spotify])
    is an interface: a type of service states with one transition per
    endpoint the script calls.

    A string is kept as its UTF-8 bytes and [str.lower] is the Unicode
    lower-casing Python applies, special mappings and final sigma
    included.  A loop whose length is not known beforehand takes fuel and
    returns [None] when it runs out. *)

From Stdlib Require Import Floats.PrimFloat.
From Stdlib Require Floats.SpecFloat Floats.FloatOps.
From Stdlib Require Import ZArith List String Ascii Bool Lia.
From stdpp Require Import gmap strings list.

#[local] Set Warnings "-inexact-float".
#[local] Open Scope Z_scope.

(** ** Text

    A Python [str] is a sequence of code points.  The embedding keeps a
    [str] as the [string] of its UTF-8 bytes: equality and the substring
    test read the same on both, and the case mappings, which work on code
    points, decode the bytes first.  The tables are those of the Unicode
    Character Database 14.0, which CPython 3.11 carries. *)

Module Unicode.

#[local] Open Scope N_scope.

(** A decoded position: a code point, or a byte that starts no UTF-8
    sequence and is carried along unchanged. *)
Inductive point : Type :=
| Char (c : N)
| Raw (b : ascii).

Definition continuation (b : N) : bool := (0x80 <=? b) && (b <? 0xC0).

(** Shortest-form UTF-8, one to four bytes per code point. *)
Fixpoint decode (s : string) : list point :=
  match s with
  | EmptyString => []
  | String a s1 =>
      let b0 := N_of_ascii a in
      if b0 <? 0x80 then Char b0 :: decode s1
      else if b0 <? 0xC2 then Raw a :: decode s1
      else if b0 <? 0xE0 then
        match s1 with
        | String a1 s2 =>
            let b1 := N_of_ascii a1 in
            if continuation b1
            then Char ((b0 - 0xC0) * 0x40 + (b1 - 0x80)) :: decode s2
            else Raw a :: decode s1
        | _ => Raw a :: decode s1
        end
      else if b0 <? 0xF0 then
        match s1 with
        | String a1 (String a2 s3) =>
            let b1 := N_of_ascii a1 in
            let b2 := N_of_ascii a2 in
            let c := (b0 - 0xE0) * 0x1000 + (b1 - 0x80) * 0x40 + (b2 - 0x80) in
            if continuation b1 && continuation b2 && (0x800 <=? c)
            then Char c :: decode s3
            else Raw a :: decode s1
        | _ => Raw a :: decode s1
        end
      else if b0 <? 0xF5 then
        match s1 with
        | String a1 (String a2 (String a3 s4)) =>
            let b1 := N_of_ascii a1 in
            let b2 := N_of_ascii a2 in
            let b3 := N_of_ascii a3 in
            let c := (b0 - 0xF0) * 0x40000 + (b1 - 0x80) * 0x1000
                     + (b2 - 0x80) * 0x40 + (b3 - 0x80) in
            if continuation b1 && continuation b2 && continuation b3
               && (0x10000 <=? c) && (c <? 0x110000)
            then Char c :: decode s4
            else Raw a :: decode s1
        | _ => Raw a :: decode s1
        end
      else Raw a :: decode s1
  end.

Definition encode_point (p : point) : string :=
  match p with
  | Raw b => String b ""
  | Char c =>
      if c <? 0x80 then String (ascii_of_N c) ""
      else if c <? 0x800 then
        String (ascii_of_N (0xC0 + c / 0x40))
          (String (ascii_of_N (0x80 + c mod 0x40)) "")
      else if c <? 0x10000 then
        String (ascii_of_N (0xE0 + c / 0x1000))
          (String (ascii_of_N (0x80 + (c / 0x40) mod 0x40))
             (String (ascii_of_N (0x80 + c mod 0x40)) ""))
      else
        String (ascii_of_N (0xF0 + c / 0x40000))
          (String (ascii_of_N (0x80 + (c / 0x1000) mod 0x40))
             (String (ascii_of_N (0x80 + (c / 0x40) mod 0x40))
                (String (ascii_of_N (0x80 + c mod 0x40)) "")))
  end.

Definition encode (l : list point) : string :=
  fold_right (fun p s => (encode_point p +:+ s)%string) ""%string l.

(** The string made of the given code points. *)
Definition text (l : list N) : string := encode (map Char l).

(** The code points with the property Case_Ignorable, as inclusive ranges. *)
Definition case_ignorable_ranges : list (N * N) := [
  (0x27, 0x27); (0x2e, 0x2e); (0x3a, 0x3a); (0x5e, 0x5e); (0x60, 0x60);
  (0xa8, 0xa8); (0xad, 0xad); (0xaf, 0xaf); (0xb4, 0xb4); (0xb7, 0xb8);
  (0x2b0, 0x36f); (0x374, 0x375); (0x37a, 0x37a); (0x384, 0x385);
  (0x387, 0x387); (0x483, 0x489); (0x559, 0x559); (0x55f, 0x55f);
  (0x591, 0x5bd); (0x5bf, 0x5bf); (0x5c1, 0x5c2); (0x5c4, 0x5c5);
  (0x5c7, 0x5c7); (0x5f4, 0x5f4); (0x600, 0x605); (0x610, 0x61a);
  (0x61c, 0x61c); (0x640, 0x640); (0x64b, 0x65f); (0x670, 0x670);
  (0x6d6, 0x6dd); (0x6df, 0x6e8); (0x6ea, 0x6ed); (0x70f, 0x70f);
  (0x711, 0x711); (0x730, 0x74a); (0x7a6, 0x7b0); (0x7eb, 0x7f5);
  (0x7fa, 0x7fa); (0x7fd, 0x7fd); (0x816, 0x82d); (0x859, 0x85b);
  (0x888, 0x888); (0x890, 0x891); (0x898, 0x89f); (0x8c9, 0x902);
  (0x93a, 0x93a); (0x93c, 0x93c); (0x941, 0x948); (0x94d, 0x94d);
  (0x951, 0x957); (0x962, 0x963); (0x971, 0x971); (0x981, 0x981);
  (0x9bc, 0x9bc); (0x9c1, 0x9c4); (0x9cd, 0x9cd); (0x9e2, 0x9e3);
  (0x9fe, 0x9fe); (0xa01, 0xa02); (0xa3c, 0xa3c); (0xa41, 0xa42);
  (0xa47, 0xa48); (0xa4b, 0xa4d); (0xa51, 0xa51); (0xa70, 0xa71);
  (0xa75, 0xa75); (0xa81, 0xa82); (0xabc, 0xabc); (0xac1, 0xac5);
  (0xac7, 0xac8); (0xacd, 0xacd); (0xae2, 0xae3); (0xafa, 0xaff);
  (0xb01, 0xb01); (0xb3c, 0xb3c); (0xb3f, 0xb3f); (0xb41, 0xb44);
  (0xb4d, 0xb4d); (0xb55, 0xb56); (0xb62, 0xb63); (0xb82, 0xb82);
  (0xbc0, 0xbc0); (0xbcd, 0xbcd); (0xc00, 0xc00); (0xc04, 0xc04);
  (0xc3c, 0xc3c); (0xc3e, 0xc40); (0xc46, 0xc48); (0xc4a, 0xc4d);
  (0xc55, 0xc56); (0xc62, 0xc63); (0xc81, 0xc81); (0xcbc, 0xcbc);
  (0xcbf, 0xcbf); (0xcc6, 0xcc6); (0xccc, 0xccd); (0xce2, 0xce3);
  (0xd00, 0xd01); (0xd3b, 0xd3c); (0xd41, 0xd44); (0xd4d, 0xd4d);
  (0xd62, 0xd63); (0xd81, 0xd81); (0xdca, 0xdca); (0xdd2, 0xdd4);
  (0xdd6, 0xdd6); (0xe31, 0xe31); (0xe34, 0xe3a); (0xe46, 0xe4e);
  (0xeb1, 0xeb1); (0xeb4, 0xebc); (0xec6, 0xec6); (0xec8, 0xecd);
  (0xf18, 0xf19); (0xf35, 0xf35); (0xf37, 0xf37); (0xf39, 0xf39);
  (0xf71, 0xf7e); (0xf80, 0xf84); (0xf86, 0xf87); (0xf8d, 0xf97);
  (0xf99, 0xfbc); (0xfc6, 0xfc6); (0x102d, 0x1030); (0x1032, 0x1037);
  (0x1039, 0x103a); (0x103d, 0x103e); (0x1058, 0x1059); (0x105e, 0x1060);
  (0x1071, 0x1074); (0x1082, 0x1082); (0x1085, 0x1086); (0x108d, 0x108d);
  (0x109d, 0x109d); (0x10fc, 0x10fc); (0x135d, 0x135f); (0x1712, 0x1714);
  (0x1732, 0x1733); (0x1752, 0x1753); (0x1772, 0x1773); (0x17b4, 0x17b5);
  (0x17b7, 0x17bd); (0x17c6, 0x17c6); (0x17c9, 0x17d3); (0x17d7, 0x17d7);
  (0x17dd, 0x17dd); (0x180b, 0x180f); (0x1843, 0x1843); (0x1885, 0x1886);
  (0x18a9, 0x18a9); (0x1920, 0x1922); (0x1927, 0x1928); (0x1932, 0x1932);
  (0x1939, 0x193b); (0x1a17, 0x1a18); (0x1a1b, 0x1a1b); (0x1a56, 0x1a56);
  (0x1a58, 0x1a5e); (0x1a60, 0x1a60); (0x1a62, 0x1a62); (0x1a65, 0x1a6c);
  (0x1a73, 0x1a7c); (0x1a7f, 0x1a7f); (0x1aa7, 0x1aa7); (0x1ab0, 0x1ace);
  (0x1b00, 0x1b03); (0x1b34, 0x1b34); (0x1b36, 0x1b3a); (0x1b3c, 0x1b3c);
  (0x1b42, 0x1b42); (0x1b6b, 0x1b73); (0x1b80, 0x1b81); (0x1ba2, 0x1ba5);
  (0x1ba8, 0x1ba9); (0x1bab, 0x1bad); (0x1be6, 0x1be6); (0x1be8, 0x1be9);
  (0x1bed, 0x1bed); (0x1bef, 0x1bf1); (0x1c2c, 0x1c33); (0x1c36, 0x1c37);
  (0x1c78, 0x1c7d); (0x1cd0, 0x1cd2); (0x1cd4, 0x1ce0); (0x1ce2, 0x1ce8);
  (0x1ced, 0x1ced); (0x1cf4, 0x1cf4); (0x1cf8, 0x1cf9); (0x1d2c, 0x1d6a);
  (0x1d78, 0x1d78); (0x1d9b, 0x1dff); (0x1fbd, 0x1fbd); (0x1fbf, 0x1fc1);
  (0x1fcd, 0x1fcf); (0x1fdd, 0x1fdf); (0x1fed, 0x1fef); (0x1ffd, 0x1ffe);
  (0x200b, 0x200f); (0x2018, 0x2019); (0x2024, 0x2024); (0x2027, 0x2027);
  (0x202a, 0x202e); (0x2060, 0x2064); (0x2066, 0x206f); (0x2071, 0x2071);
  (0x207f, 0x207f); (0x2090, 0x209c); (0x20d0, 0x20f0); (0x2c7c, 0x2c7d);
  (0x2cef, 0x2cf1); (0x2d6f, 0x2d6f); (0x2d7f, 0x2d7f); (0x2de0, 0x2dff);
  (0x2e2f, 0x2e2f); (0x3005, 0x3005); (0x302a, 0x302d); (0x3031, 0x3035);
  (0x303b, 0x303b); (0x3099, 0x309e); (0x30fc, 0x30fe); (0xa015, 0xa015);
  (0xa4f8, 0xa4fd); (0xa60c, 0xa60c); (0xa66f, 0xa672); (0xa674, 0xa67d);
  (0xa67f, 0xa67f); (0xa69c, 0xa69f); (0xa6f0, 0xa6f1); (0xa700, 0xa721);
  (0xa770, 0xa770); (0xa788, 0xa78a); (0xa7f2, 0xa7f4); (0xa7f8, 0xa7f9);
  (0xa802, 0xa802); (0xa806, 0xa806); (0xa80b, 0xa80b); (0xa825, 0xa826);
  (0xa82c, 0xa82c); (0xa8c4, 0xa8c5); (0xa8e0, 0xa8f1); (0xa8ff, 0xa8ff);
  (0xa926, 0xa92d); (0xa947, 0xa951); (0xa980, 0xa982); (0xa9b3, 0xa9b3);
  (0xa9b6, 0xa9b9); (0xa9bc, 0xa9bd); (0xa9cf, 0xa9cf); (0xa9e5, 0xa9e6);
  (0xaa29, 0xaa2e); (0xaa31, 0xaa32); (0xaa35, 0xaa36); (0xaa43, 0xaa43);
  (0xaa4c, 0xaa4c); (0xaa70, 0xaa70); (0xaa7c, 0xaa7c); (0xaab0, 0xaab0);
  (0xaab2, 0xaab4); (0xaab7, 0xaab8); (0xaabe, 0xaabf); (0xaac1, 0xaac1);
  (0xaadd, 0xaadd); (0xaaec, 0xaaed); (0xaaf3, 0xaaf4); (0xaaf6, 0xaaf6);
  (0xab5b, 0xab5f); (0xab69, 0xab6b); (0xabe5, 0xabe5); (0xabe8, 0xabe8);
  (0xabed, 0xabed); (0xfb1e, 0xfb1e); (0xfbb2, 0xfbc2); (0xfe00, 0xfe0f);
  (0xfe13, 0xfe13); (0xfe20, 0xfe2f); (0xfe52, 0xfe52); (0xfe55, 0xfe55);
  (0xfeff, 0xfeff); (0xff07, 0xff07); (0xff0e, 0xff0e); (0xff1a, 0xff1a);
  (0xff3e, 0xff3e); (0xff40, 0xff40); (0xff70, 0xff70); (0xff9e, 0xff9f);
  (0xffe3, 0xffe3); (0xfff9, 0xfffb); (0x101fd, 0x101fd); (0x102e0, 0x102e0);
  (0x10376, 0x1037a); (0x10780, 0x10785); (0x10787, 0x107b0);
  (0x107b2, 0x107ba); (0x10a01, 0x10a03); (0x10a05, 0x10a06);
  (0x10a0c, 0x10a0f); (0x10a38, 0x10a3a); (0x10a3f, 0x10a3f);
  (0x10ae5, 0x10ae6); (0x10d24, 0x10d27); (0x10eab, 0x10eac);
  (0x10f46, 0x10f50); (0x10f82, 0x10f85); (0x11001, 0x11001);
  (0x11038, 0x11046); (0x11070, 0x11070); (0x11073, 0x11074);
  (0x1107f, 0x11081); (0x110b3, 0x110b6); (0x110b9, 0x110ba);
  (0x110bd, 0x110bd); (0x110c2, 0x110c2); (0x110cd, 0x110cd);
  (0x11100, 0x11102); (0x11127, 0x1112b); (0x1112d, 0x11134);
  (0x11173, 0x11173); (0x11180, 0x11181); (0x111b6, 0x111be);
  (0x111c9, 0x111cc); (0x111cf, 0x111cf); (0x1122f, 0x11231);
  (0x11234, 0x11234); (0x11236, 0x11237); (0x1123e, 0x1123e);
  (0x112df, 0x112df); (0x112e3, 0x112ea); (0x11300, 0x11301);
  (0x1133b, 0x1133c); (0x11340, 0x11340); (0x11366, 0x1136c);
  (0x11370, 0x11374); (0x11438, 0x1143f); (0x11442, 0x11444);
  (0x11446, 0x11446); (0x1145e, 0x1145e); (0x114b3, 0x114b8);
  (0x114ba, 0x114ba); (0x114bf, 0x114c0); (0x114c2, 0x114c3);
  (0x115b2, 0x115b5); (0x115bc, 0x115bd); (0x115bf, 0x115c0);
  (0x115dc, 0x115dd); (0x11633, 0x1163a); (0x1163d, 0x1163d);
  (0x1163f, 0x11640); (0x116ab, 0x116ab); (0x116ad, 0x116ad);
  (0x116b0, 0x116b5); (0x116b7, 0x116b7); (0x1171d, 0x1171f);
  (0x11722, 0x11725); (0x11727, 0x1172b); (0x1182f, 0x11837);
  (0x11839, 0x1183a); (0x1193b, 0x1193c); (0x1193e, 0x1193e);
  (0x11943, 0x11943); (0x119d4, 0x119d7); (0x119da, 0x119db);
  (0x119e0, 0x119e0); (0x11a01, 0x11a0a); (0x11a33, 0x11a38);
  (0x11a3b, 0x11a3e); (0x11a47, 0x11a47); (0x11a51, 0x11a56);
  (0x11a59, 0x11a5b); (0x11a8a, 0x11a96); (0x11a98, 0x11a99);
  (0x11c30, 0x11c36); (0x11c38, 0x11c3d); (0x11c3f, 0x11c3f);
  (0x11c92, 0x11ca7); (0x11caa, 0x11cb0); (0x11cb2, 0x11cb3);
  (0x11cb5, 0x11cb6); (0x11d31, 0x11d36); (0x11d3a, 0x11d3a);
  (0x11d3c, 0x11d3d); (0x11d3f, 0x11d45); (0x11d47, 0x11d47);
  (0x11d90, 0x11d91); (0x11d95, 0x11d95); (0x11d97, 0x11d97);
  (0x11ef3, 0x11ef4); (0x13430, 0x13438); (0x16af0, 0x16af4);
  (0x16b30, 0x16b36); (0x16b40, 0x16b43); (0x16f4f, 0x16f4f);
  (0x16f8f, 0x16f9f); (0x16fe0, 0x16fe1); (0x16fe3, 0x16fe4);
  (0x1aff0, 0x1aff3); (0x1aff5, 0x1affb); (0x1affd, 0x1affe);
  (0x1bc9d, 0x1bc9e); (0x1bca0, 0x1bca3); (0x1cf00, 0x1cf2d);
  (0x1cf30, 0x1cf46); (0x1d167, 0x1d169); (0x1d173, 0x1d182);
  (0x1d185, 0x1d18b); (0x1d1aa, 0x1d1ad); (0x1d242, 0x1d244);
  (0x1da00, 0x1da36); (0x1da3b, 0x1da6c); (0x1da75, 0x1da75);
  (0x1da84, 0x1da84); (0x1da9b, 0x1da9f); (0x1daa1, 0x1daaf);
  (0x1e000, 0x1e006); (0x1e008, 0x1e018); (0x1e01b, 0x1e021);
  (0x1e023, 0x1e024); (0x1e026, 0x1e02a); (0x1e130, 0x1e13d);
  (0x1e2ae, 0x1e2ae); (0x1e2ec, 0x1e2ef); (0x1e8d0, 0x1e8d6);
  (0x1e944, 0x1e94b); (0x1f3fb, 0x1f3ff); (0xe0001, 0xe0001);
  (0xe0020, 0xe007f); (0xe0100, 0xe01ef) ].

(** The code points with the property Cased that are not Case_Ignorable, as
    inclusive ranges. *)
Definition cased_ranges : list (N * N) := [
  (0x41, 0x5a); (0x61, 0x7a); (0xaa, 0xaa); (0xb5, 0xb5); (0xba, 0xba);
  (0xc0, 0xd6); (0xd8, 0xf6); (0xf8, 0x1ba); (0x1bc, 0x1bf); (0x1c4, 0x293);
  (0x295, 0x2af); (0x370, 0x373); (0x376, 0x377); (0x37b, 0x37d);
  (0x37f, 0x37f); (0x386, 0x386); (0x388, 0x38a); (0x38c, 0x38c);
  (0x38e, 0x3a1); (0x3a3, 0x3f5); (0x3f7, 0x481); (0x48a, 0x52f);
  (0x531, 0x556); (0x560, 0x588); (0x10a0, 0x10c5); (0x10c7, 0x10c7);
  (0x10cd, 0x10cd); (0x10d0, 0x10fa); (0x10fd, 0x10ff); (0x13a0, 0x13f5);
  (0x13f8, 0x13fd); (0x1c80, 0x1c88); (0x1c90, 0x1cba); (0x1cbd, 0x1cbf);
  (0x1d00, 0x1d2b); (0x1d6b, 0x1d77); (0x1d79, 0x1d9a); (0x1e00, 0x1f15);
  (0x1f18, 0x1f1d); (0x1f20, 0x1f45); (0x1f48, 0x1f4d); (0x1f50, 0x1f57);
  (0x1f59, 0x1f59); (0x1f5b, 0x1f5b); (0x1f5d, 0x1f5d); (0x1f5f, 0x1f7d);
  (0x1f80, 0x1fb4); (0x1fb6, 0x1fbc); (0x1fbe, 0x1fbe); (0x1fc2, 0x1fc4);
  (0x1fc6, 0x1fcc); (0x1fd0, 0x1fd3); (0x1fd6, 0x1fdb); (0x1fe0, 0x1fec);
  (0x1ff2, 0x1ff4); (0x1ff6, 0x1ffc); (0x2102, 0x2102); (0x2107, 0x2107);
  (0x210a, 0x2113); (0x2115, 0x2115); (0x2119, 0x211d); (0x2124, 0x2124);
  (0x2126, 0x2126); (0x2128, 0x2128); (0x212a, 0x212d); (0x212f, 0x2134);
  (0x2139, 0x2139); (0x213c, 0x213f); (0x2145, 0x2149); (0x214e, 0x214e);
  (0x2160, 0x217f); (0x2183, 0x2184); (0x24b6, 0x24e9); (0x2c00, 0x2c7b);
  (0x2c7e, 0x2ce4); (0x2ceb, 0x2cee); (0x2cf2, 0x2cf3); (0x2d00, 0x2d25);
  (0x2d27, 0x2d27); (0x2d2d, 0x2d2d); (0xa640, 0xa66d); (0xa680, 0xa69b);
  (0xa722, 0xa76f); (0xa771, 0xa787); (0xa78b, 0xa78e); (0xa790, 0xa7ca);
  (0xa7d0, 0xa7d1); (0xa7d3, 0xa7d3); (0xa7d5, 0xa7d9); (0xa7f5, 0xa7f6);
  (0xa7fa, 0xa7fa); (0xab30, 0xab5a); (0xab60, 0xab68); (0xab70, 0xabbf);
  (0xfb00, 0xfb06); (0xfb13, 0xfb17); (0xff21, 0xff3a); (0xff41, 0xff5a);
  (0x10400, 0x1044f); (0x104b0, 0x104d3); (0x104d8, 0x104fb);
  (0x10570, 0x1057a); (0x1057c, 0x1058a); (0x1058c, 0x10592);
  (0x10594, 0x10595); (0x10597, 0x105a1); (0x105a3, 0x105b1);
  (0x105b3, 0x105b9); (0x105bb, 0x105bc); (0x10c80, 0x10cb2);
  (0x10cc0, 0x10cf2); (0x118a0, 0x118df); (0x16e40, 0x16e7f);
  (0x1d400, 0x1d454); (0x1d456, 0x1d49c); (0x1d49e, 0x1d49f);
  (0x1d4a2, 0x1d4a2); (0x1d4a5, 0x1d4a6); (0x1d4a9, 0x1d4ac);
  (0x1d4ae, 0x1d4b9); (0x1d4bb, 0x1d4bb); (0x1d4bd, 0x1d4c3);
  (0x1d4c5, 0x1d505); (0x1d507, 0x1d50a); (0x1d50d, 0x1d514);
  (0x1d516, 0x1d51c); (0x1d51e, 0x1d539); (0x1d53b, 0x1d53e);
  (0x1d540, 0x1d544); (0x1d546, 0x1d546); (0x1d54a, 0x1d550);
  (0x1d552, 0x1d6a5); (0x1d6a8, 0x1d6c0); (0x1d6c2, 0x1d6da);
  (0x1d6dc, 0x1d6fa); (0x1d6fc, 0x1d714); (0x1d716, 0x1d734);
  (0x1d736, 0x1d74e); (0x1d750, 0x1d76e); (0x1d770, 0x1d788);
  (0x1d78a, 0x1d7a8); (0x1d7aa, 0x1d7c2); (0x1d7c4, 0x1d7cb);
  (0x1df00, 0x1df09); (0x1df0b, 0x1df1e); (0x1e900, 0x1e943);
  (0x1f130, 0x1f149); (0x1f150, 0x1f169); (0x1f170, 0x1f189) ].

(** The one-to-one lower-case mappings.  A run [(first, last, step, target)]
    maps [first + i * step], up to [last], to [target + i * step]. *)
Definition lower_runs : list (N * N * N * N) := [
  (0x41, 0x5a, 1, 0x61); (0xc0, 0xd6, 1, 0xe0); (0xd8, 0xde, 1, 0xf8);
  (0x100, 0x12e, 2, 0x101); (0x132, 0x136, 2, 0x133);
  (0x139, 0x147, 2, 0x13a); (0x14a, 0x176, 2, 0x14b);
  (0x178, 0x178, 1, 0xff); (0x179, 0x17d, 2, 0x17a);
  (0x181, 0x181, 1, 0x253); (0x182, 0x184, 2, 0x183);
  (0x186, 0x186, 1, 0x254); (0x187, 0x187, 1, 0x188);
  (0x189, 0x18a, 1, 0x256); (0x18b, 0x18b, 1, 0x18c);
  (0x18e, 0x18e, 1, 0x1dd); (0x18f, 0x18f, 1, 0x259);
  (0x190, 0x190, 1, 0x25b); (0x191, 0x191, 1, 0x192);
  (0x193, 0x193, 1, 0x260); (0x194, 0x194, 1, 0x263);
  (0x196, 0x196, 1, 0x269); (0x197, 0x197, 1, 0x268);
  (0x198, 0x198, 1, 0x199); (0x19c, 0x19c, 1, 0x26f);
  (0x19d, 0x19d, 1, 0x272); (0x19f, 0x19f, 1, 0x275);
  (0x1a0, 0x1a4, 2, 0x1a1); (0x1a6, 0x1a6, 1, 0x280);
  (0x1a7, 0x1a7, 1, 0x1a8); (0x1a9, 0x1a9, 1, 0x283);
  (0x1ac, 0x1ac, 1, 0x1ad); (0x1ae, 0x1ae, 1, 0x288);
  (0x1af, 0x1af, 1, 0x1b0); (0x1b1, 0x1b2, 1, 0x28a);
  (0x1b3, 0x1b5, 2, 0x1b4); (0x1b7, 0x1b7, 1, 0x292);
  (0x1b8, 0x1b8, 1, 0x1b9); (0x1bc, 0x1bc, 1, 0x1bd);
  (0x1c4, 0x1c4, 1, 0x1c6); (0x1c5, 0x1c5, 1, 0x1c6);
  (0x1c7, 0x1c7, 1, 0x1c9); (0x1c8, 0x1c8, 1, 0x1c9);
  (0x1ca, 0x1ca, 1, 0x1cc); (0x1cb, 0x1db, 2, 0x1cc);
  (0x1de, 0x1ee, 2, 0x1df); (0x1f1, 0x1f1, 1, 0x1f3);
  (0x1f2, 0x1f4, 2, 0x1f3); (0x1f6, 0x1f6, 1, 0x195);
  (0x1f7, 0x1f7, 1, 0x1bf); (0x1f8, 0x21e, 2, 0x1f9);
  (0x220, 0x220, 1, 0x19e); (0x222, 0x232, 2, 0x223);
  (0x23a, 0x23a, 1, 0x2c65); (0x23b, 0x23b, 1, 0x23c);
  (0x23d, 0x23d, 1, 0x19a); (0x23e, 0x23e, 1, 0x2c66);
  (0x241, 0x241, 1, 0x242); (0x243, 0x243, 1, 0x180);
  (0x244, 0x244, 1, 0x289); (0x245, 0x245, 1, 0x28c);
  (0x246, 0x24e, 2, 0x247); (0x370, 0x372, 2, 0x371);
  (0x376, 0x376, 1, 0x377); (0x37f, 0x37f, 1, 0x3f3);
  (0x386, 0x386, 1, 0x3ac); (0x388, 0x38a, 1, 0x3ad);
  (0x38c, 0x38c, 1, 0x3cc); (0x38e, 0x38f, 1, 0x3cd);
  (0x391, 0x3a1, 1, 0x3b1); (0x3a3, 0x3ab, 1, 0x3c3);
  (0x3cf, 0x3cf, 1, 0x3d7); (0x3d8, 0x3ee, 2, 0x3d9);
  (0x3f4, 0x3f4, 1, 0x3b8); (0x3f7, 0x3f7, 1, 0x3f8);
  (0x3f9, 0x3f9, 1, 0x3f2); (0x3fa, 0x3fa, 1, 0x3fb);
  (0x3fd, 0x3ff, 1, 0x37b); (0x400, 0x40f, 1, 0x450);
  (0x410, 0x42f, 1, 0x430); (0x460, 0x480, 2, 0x461);
  (0x48a, 0x4be, 2, 0x48b); (0x4c0, 0x4c0, 1, 0x4cf);
  (0x4c1, 0x4cd, 2, 0x4c2); (0x4d0, 0x52e, 2, 0x4d1);
  (0x531, 0x556, 1, 0x561); (0x10a0, 0x10c5, 1, 0x2d00);
  (0x10c7, 0x10c7, 1, 0x2d27); (0x10cd, 0x10cd, 1, 0x2d2d);
  (0x13a0, 0x13ef, 1, 0xab70); (0x13f0, 0x13f5, 1, 0x13f8);
  (0x1c90, 0x1cba, 1, 0x10d0); (0x1cbd, 0x1cbf, 1, 0x10fd);
  (0x1e00, 0x1e94, 2, 0x1e01); (0x1e9e, 0x1e9e, 1, 0xdf);
  (0x1ea0, 0x1efe, 2, 0x1ea1); (0x1f08, 0x1f0f, 1, 0x1f00);
  (0x1f18, 0x1f1d, 1, 0x1f10); (0x1f28, 0x1f2f, 1, 0x1f20);
  (0x1f38, 0x1f3f, 1, 0x1f30); (0x1f48, 0x1f4d, 1, 0x1f40);
  (0x1f59, 0x1f5f, 2, 0x1f51); (0x1f68, 0x1f6f, 1, 0x1f60);
  (0x1f88, 0x1f8f, 1, 0x1f80); (0x1f98, 0x1f9f, 1, 0x1f90);
  (0x1fa8, 0x1faf, 1, 0x1fa0); (0x1fb8, 0x1fb9, 1, 0x1fb0);
  (0x1fba, 0x1fbb, 1, 0x1f70); (0x1fbc, 0x1fbc, 1, 0x1fb3);
  (0x1fc8, 0x1fcb, 1, 0x1f72); (0x1fcc, 0x1fcc, 1, 0x1fc3);
  (0x1fd8, 0x1fd9, 1, 0x1fd0); (0x1fda, 0x1fdb, 1, 0x1f76);
  (0x1fe8, 0x1fe9, 1, 0x1fe0); (0x1fea, 0x1feb, 1, 0x1f7a);
  (0x1fec, 0x1fec, 1, 0x1fe5); (0x1ff8, 0x1ff9, 1, 0x1f78);
  (0x1ffa, 0x1ffb, 1, 0x1f7c); (0x1ffc, 0x1ffc, 1, 0x1ff3);
  (0x2126, 0x2126, 1, 0x3c9); (0x212a, 0x212a, 1, 0x6b);
  (0x212b, 0x212b, 1, 0xe5); (0x2132, 0x2132, 1, 0x214e);
  (0x2160, 0x216f, 1, 0x2170); (0x2183, 0x2183, 1, 0x2184);
  (0x24b6, 0x24cf, 1, 0x24d0); (0x2c00, 0x2c2f, 1, 0x2c30);
  (0x2c60, 0x2c60, 1, 0x2c61); (0x2c62, 0x2c62, 1, 0x26b);
  (0x2c63, 0x2c63, 1, 0x1d7d); (0x2c64, 0x2c64, 1, 0x27d);
  (0x2c67, 0x2c6b, 2, 0x2c68); (0x2c6d, 0x2c6d, 1, 0x251);
  (0x2c6e, 0x2c6e, 1, 0x271); (0x2c6f, 0x2c6f, 1, 0x250);
  (0x2c70, 0x2c70, 1, 0x252); (0x2c72, 0x2c72, 1, 0x2c73);
  (0x2c75, 0x2c75, 1, 0x2c76); (0x2c7e, 0x2c7f, 1, 0x23f);
  (0x2c80, 0x2ce2, 2, 0x2c81); (0x2ceb, 0x2ced, 2, 0x2cec);
  (0x2cf2, 0x2cf2, 1, 0x2cf3); (0xa640, 0xa66c, 2, 0xa641);
  (0xa680, 0xa69a, 2, 0xa681); (0xa722, 0xa72e, 2, 0xa723);
  (0xa732, 0xa76e, 2, 0xa733); (0xa779, 0xa77b, 2, 0xa77a);
  (0xa77d, 0xa77d, 1, 0x1d79); (0xa77e, 0xa786, 2, 0xa77f);
  (0xa78b, 0xa78b, 1, 0xa78c); (0xa78d, 0xa78d, 1, 0x265);
  (0xa790, 0xa792, 2, 0xa791); (0xa796, 0xa7a8, 2, 0xa797);
  (0xa7aa, 0xa7aa, 1, 0x266); (0xa7ab, 0xa7ab, 1, 0x25c);
  (0xa7ac, 0xa7ac, 1, 0x261); (0xa7ad, 0xa7ad, 1, 0x26c);
  (0xa7ae, 0xa7ae, 1, 0x26a); (0xa7b0, 0xa7b0, 1, 0x29e);
  (0xa7b1, 0xa7b1, 1, 0x287); (0xa7b2, 0xa7b2, 1, 0x29d);
  (0xa7b3, 0xa7b3, 1, 0xab53); (0xa7b4, 0xa7c2, 2, 0xa7b5);
  (0xa7c4, 0xa7c4, 1, 0xa794); (0xa7c5, 0xa7c5, 1, 0x282);
  (0xa7c6, 0xa7c6, 1, 0x1d8e); (0xa7c7, 0xa7c9, 2, 0xa7c8);
  (0xa7d0, 0xa7d0, 1, 0xa7d1); (0xa7d6, 0xa7d8, 2, 0xa7d7);
  (0xa7f5, 0xa7f5, 1, 0xa7f6); (0xff21, 0xff3a, 1, 0xff41);
  (0x10400, 0x10427, 1, 0x10428); (0x104b0, 0x104d3, 1, 0x104d8);
  (0x10570, 0x1057a, 1, 0x10597); (0x1057c, 0x1058a, 1, 0x105a3);
  (0x1058c, 0x10592, 1, 0x105b3); (0x10594, 0x10595, 1, 0x105bb);
  (0x10c80, 0x10cb2, 1, 0x10cc0); (0x118a0, 0x118bf, 1, 0x118c0);
  (0x16e40, 0x16e5f, 1, 0x16e60); (0x1e900, 0x1e921, 1, 0x1e922) ].

(** The lower-case mappings to more than one code point. *)
Definition lower_special : list (N * list N) := [
  (0x130, [0x69; 0x307]) ].

(** The one-to-one upper-case mappings, as runs. *)
Definition upper_runs : list (N * N * N * N) := [
  (0x61, 0x7a, 1, 0x41); (0xb5, 0xb5, 1, 0x39c); (0xe0, 0xf6, 1, 0xc0);
  (0xf8, 0xfe, 1, 0xd8); (0xff, 0xff, 1, 0x178); (0x101, 0x12f, 2, 0x100);
  (0x131, 0x131, 1, 0x49); (0x133, 0x137, 2, 0x132);
  (0x13a, 0x148, 2, 0x139); (0x14b, 0x177, 2, 0x14a);
  (0x17a, 0x17e, 2, 0x179); (0x17f, 0x17f, 1, 0x53);
  (0x180, 0x180, 1, 0x243); (0x183, 0x185, 2, 0x182);
  (0x188, 0x188, 1, 0x187); (0x18c, 0x18c, 1, 0x18b);
  (0x192, 0x192, 1, 0x191); (0x195, 0x195, 1, 0x1f6);
  (0x199, 0x199, 1, 0x198); (0x19a, 0x19a, 1, 0x23d);
  (0x19e, 0x19e, 1, 0x220); (0x1a1, 0x1a5, 2, 0x1a0);
  (0x1a8, 0x1a8, 1, 0x1a7); (0x1ad, 0x1ad, 1, 0x1ac);
  (0x1b0, 0x1b0, 1, 0x1af); (0x1b4, 0x1b6, 2, 0x1b3);
  (0x1b9, 0x1b9, 1, 0x1b8); (0x1bd, 0x1bd, 1, 0x1bc);
  (0x1bf, 0x1bf, 1, 0x1f7); (0x1c5, 0x1c5, 1, 0x1c4);
  (0x1c6, 0x1c6, 1, 0x1c4); (0x1c8, 0x1c8, 1, 0x1c7);
  (0x1c9, 0x1c9, 1, 0x1c7); (0x1cb, 0x1cb, 1, 0x1ca);
  (0x1cc, 0x1cc, 1, 0x1ca); (0x1ce, 0x1dc, 2, 0x1cd);
  (0x1dd, 0x1dd, 1, 0x18e); (0x1df, 0x1ef, 2, 0x1de);
  (0x1f2, 0x1f2, 1, 0x1f1); (0x1f3, 0x1f3, 1, 0x1f1);
  (0x1f5, 0x1f5, 1, 0x1f4); (0x1f9, 0x21f, 2, 0x1f8);
  (0x223, 0x233, 2, 0x222); (0x23c, 0x23c, 1, 0x23b);
  (0x23f, 0x240, 1, 0x2c7e); (0x242, 0x242, 1, 0x241);
  (0x247, 0x24f, 2, 0x246); (0x250, 0x250, 1, 0x2c6f);
  (0x251, 0x251, 1, 0x2c6d); (0x252, 0x252, 1, 0x2c70);
  (0x253, 0x253, 1, 0x181); (0x254, 0x254, 1, 0x186);
  (0x256, 0x257, 1, 0x189); (0x259, 0x259, 1, 0x18f);
  (0x25b, 0x25b, 1, 0x190); (0x25c, 0x25c, 1, 0xa7ab);
  (0x260, 0x260, 1, 0x193); (0x261, 0x261, 1, 0xa7ac);
  (0x263, 0x263, 1, 0x194); (0x265, 0x265, 1, 0xa78d);
  (0x266, 0x266, 1, 0xa7aa); (0x268, 0x268, 1, 0x197);
  (0x269, 0x269, 1, 0x196); (0x26a, 0x26a, 1, 0xa7ae);
  (0x26b, 0x26b, 1, 0x2c62); (0x26c, 0x26c, 1, 0xa7ad);
  (0x26f, 0x26f, 1, 0x19c); (0x271, 0x271, 1, 0x2c6e);
  (0x272, 0x272, 1, 0x19d); (0x275, 0x275, 1, 0x19f);
  (0x27d, 0x27d, 1, 0x2c64); (0x280, 0x280, 1, 0x1a6);
  (0x282, 0x282, 1, 0xa7c5); (0x283, 0x283, 1, 0x1a9);
  (0x287, 0x287, 1, 0xa7b1); (0x288, 0x288, 1, 0x1ae);
  (0x289, 0x289, 1, 0x244); (0x28a, 0x28b, 1, 0x1b1);
  (0x28c, 0x28c, 1, 0x245); (0x292, 0x292, 1, 0x1b7);
  (0x29d, 0x29d, 1, 0xa7b2); (0x29e, 0x29e, 1, 0xa7b0);
  (0x345, 0x345, 1, 0x399); (0x371, 0x373, 2, 0x370);
  (0x377, 0x377, 1, 0x376); (0x37b, 0x37d, 1, 0x3fd);
  (0x3ac, 0x3ac, 1, 0x386); (0x3ad, 0x3af, 1, 0x388);
  (0x3b1, 0x3c1, 1, 0x391); (0x3c2, 0x3c2, 1, 0x3a3);
  (0x3c3, 0x3cb, 1, 0x3a3); (0x3cc, 0x3cc, 1, 0x38c);
  (0x3cd, 0x3ce, 1, 0x38e); (0x3d0, 0x3d0, 1, 0x392);
  (0x3d1, 0x3d1, 1, 0x398); (0x3d5, 0x3d5, 1, 0x3a6);
  (0x3d6, 0x3d6, 1, 0x3a0); (0x3d7, 0x3d7, 1, 0x3cf);
  (0x3d9, 0x3ef, 2, 0x3d8); (0x3f0, 0x3f0, 1, 0x39a);
  (0x3f1, 0x3f1, 1, 0x3a1); (0x3f2, 0x3f2, 1, 0x3f9);
  (0x3f3, 0x3f3, 1, 0x37f); (0x3f5, 0x3f5, 1, 0x395);
  (0x3f8, 0x3f8, 1, 0x3f7); (0x3fb, 0x3fb, 1, 0x3fa);
  (0x430, 0x44f, 1, 0x410); (0x450, 0x45f, 1, 0x400);
  (0x461, 0x481, 2, 0x460); (0x48b, 0x4bf, 2, 0x48a);
  (0x4c2, 0x4ce, 2, 0x4c1); (0x4cf, 0x4cf, 1, 0x4c0);
  (0x4d1, 0x52f, 2, 0x4d0); (0x561, 0x586, 1, 0x531);
  (0x10d0, 0x10fa, 1, 0x1c90); (0x10fd, 0x10ff, 1, 0x1cbd);
  (0x13f8, 0x13fd, 1, 0x13f0); (0x1c80, 0x1c80, 1, 0x412);
  (0x1c81, 0x1c81, 1, 0x414); (0x1c82, 0x1c82, 1, 0x41e);
  (0x1c83, 0x1c84, 1, 0x421); (0x1c85, 0x1c85, 1, 0x422);
  (0x1c86, 0x1c86, 1, 0x42a); (0x1c87, 0x1c87, 1, 0x462);
  (0x1c88, 0x1c88, 1, 0xa64a); (0x1d79, 0x1d79, 1, 0xa77d);
  (0x1d7d, 0x1d7d, 1, 0x2c63); (0x1d8e, 0x1d8e, 1, 0xa7c6);
  (0x1e01, 0x1e95, 2, 0x1e00); (0x1e9b, 0x1e9b, 1, 0x1e60);
  (0x1ea1, 0x1eff, 2, 0x1ea0); (0x1f00, 0x1f07, 1, 0x1f08);
  (0x1f10, 0x1f15, 1, 0x1f18); (0x1f20, 0x1f27, 1, 0x1f28);
  (0x1f30, 0x1f37, 1, 0x1f38); (0x1f40, 0x1f45, 1, 0x1f48);
  (0x1f51, 0x1f57, 2, 0x1f59); (0x1f60, 0x1f67, 1, 0x1f68);
  (0x1f70, 0x1f71, 1, 0x1fba); (0x1f72, 0x1f75, 1, 0x1fc8);
  (0x1f76, 0x1f77, 1, 0x1fda); (0x1f78, 0x1f79, 1, 0x1ff8);
  (0x1f7a, 0x1f7b, 1, 0x1fea); (0x1f7c, 0x1f7d, 1, 0x1ffa);
  (0x1fb0, 0x1fb1, 1, 0x1fb8); (0x1fbe, 0x1fbe, 1, 0x399);
  (0x1fd0, 0x1fd1, 1, 0x1fd8); (0x1fe0, 0x1fe1, 1, 0x1fe8);
  (0x1fe5, 0x1fe5, 1, 0x1fec); (0x214e, 0x214e, 1, 0x2132);
  (0x2170, 0x217f, 1, 0x2160); (0x2184, 0x2184, 1, 0x2183);
  (0x24d0, 0x24e9, 1, 0x24b6); (0x2c30, 0x2c5f, 1, 0x2c00);
  (0x2c61, 0x2c61, 1, 0x2c60); (0x2c65, 0x2c65, 1, 0x23a);
  (0x2c66, 0x2c66, 1, 0x23e); (0x2c68, 0x2c6c, 2, 0x2c67);
  (0x2c73, 0x2c73, 1, 0x2c72); (0x2c76, 0x2c76, 1, 0x2c75);
  (0x2c81, 0x2ce3, 2, 0x2c80); (0x2cec, 0x2cee, 2, 0x2ceb);
  (0x2cf3, 0x2cf3, 1, 0x2cf2); (0x2d00, 0x2d25, 1, 0x10a0);
  (0x2d27, 0x2d27, 1, 0x10c7); (0x2d2d, 0x2d2d, 1, 0x10cd);
  (0xa641, 0xa66d, 2, 0xa640); (0xa681, 0xa69b, 2, 0xa680);
  (0xa723, 0xa72f, 2, 0xa722); (0xa733, 0xa76f, 2, 0xa732);
  (0xa77a, 0xa77c, 2, 0xa779); (0xa77f, 0xa787, 2, 0xa77e);
  (0xa78c, 0xa78c, 1, 0xa78b); (0xa791, 0xa793, 2, 0xa790);
  (0xa794, 0xa794, 1, 0xa7c4); (0xa797, 0xa7a9, 2, 0xa796);
  (0xa7b5, 0xa7c3, 2, 0xa7b4); (0xa7c8, 0xa7ca, 2, 0xa7c7);
  (0xa7d1, 0xa7d1, 1, 0xa7d0); (0xa7d7, 0xa7d9, 2, 0xa7d6);
  (0xa7f6, 0xa7f6, 1, 0xa7f5); (0xab53, 0xab53, 1, 0xa7b3);
  (0xab70, 0xabbf, 1, 0x13a0); (0xff41, 0xff5a, 1, 0xff21);
  (0x10428, 0x1044f, 1, 0x10400); (0x104d8, 0x104fb, 1, 0x104b0);
  (0x10597, 0x105a1, 1, 0x10570); (0x105a3, 0x105b1, 1, 0x1057c);
  (0x105b3, 0x105b9, 1, 0x1058c); (0x105bb, 0x105bc, 1, 0x10594);
  (0x10cc0, 0x10cf2, 1, 0x10c80); (0x118c0, 0x118df, 1, 0x118a0);
  (0x16e60, 0x16e7f, 1, 0x16e40); (0x1e922, 0x1e943, 1, 0x1e900) ].

(** The upper-case mappings to more than one code point. *)
Definition upper_special : list (N * list N) := [
  (0xdf, [0x53; 0x53]); (0x149, [0x2bc; 0x4e]); (0x1f0, [0x4a; 0x30c]);
  (0x390, [0x399; 0x308; 0x301]); (0x3b0, [0x3a5; 0x308; 0x301]);
  (0x587, [0x535; 0x552]); (0x1e96, [0x48; 0x331]); (0x1e97, [0x54; 0x308]);
  (0x1e98, [0x57; 0x30a]); (0x1e99, [0x59; 0x30a]); (0x1e9a, [0x41; 0x2be]);
  (0x1f50, [0x3a5; 0x313]); (0x1f52, [0x3a5; 0x313; 0x300]);
  (0x1f54, [0x3a5; 0x313; 0x301]); (0x1f56, [0x3a5; 0x313; 0x342]);
  (0x1f80, [0x1f08; 0x399]); (0x1f81, [0x1f09; 0x399]);
  (0x1f82, [0x1f0a; 0x399]); (0x1f83, [0x1f0b; 0x399]);
  (0x1f84, [0x1f0c; 0x399]); (0x1f85, [0x1f0d; 0x399]);
  (0x1f86, [0x1f0e; 0x399]); (0x1f87, [0x1f0f; 0x399]);
  (0x1f88, [0x1f08; 0x399]); (0x1f89, [0x1f09; 0x399]);
  (0x1f8a, [0x1f0a; 0x399]); (0x1f8b, [0x1f0b; 0x399]);
  (0x1f8c, [0x1f0c; 0x399]); (0x1f8d, [0x1f0d; 0x399]);
  (0x1f8e, [0x1f0e; 0x399]); (0x1f8f, [0x1f0f; 0x399]);
  (0x1f90, [0x1f28; 0x399]); (0x1f91, [0x1f29; 0x399]);
  (0x1f92, [0x1f2a; 0x399]); (0x1f93, [0x1f2b; 0x399]);
  (0x1f94, [0x1f2c; 0x399]); (0x1f95, [0x1f2d; 0x399]);
  (0x1f96, [0x1f2e; 0x399]); (0x1f97, [0x1f2f; 0x399]);
  (0x1f98, [0x1f28; 0x399]); (0x1f99, [0x1f29; 0x399]);
  (0x1f9a, [0x1f2a; 0x399]); (0x1f9b, [0x1f2b; 0x399]);
  (0x1f9c, [0x1f2c; 0x399]); (0x1f9d, [0x1f2d; 0x399]);
  (0x1f9e, [0x1f2e; 0x399]); (0x1f9f, [0x1f2f; 0x399]);
  (0x1fa0, [0x1f68; 0x399]); (0x1fa1, [0x1f69; 0x399]);
  (0x1fa2, [0x1f6a; 0x399]); (0x1fa3, [0x1f6b; 0x399]);
  (0x1fa4, [0x1f6c; 0x399]); (0x1fa5, [0x1f6d; 0x399]);
  (0x1fa6, [0x1f6e; 0x399]); (0x1fa7, [0x1f6f; 0x399]);
  (0x1fa8, [0x1f68; 0x399]); (0x1fa9, [0x1f69; 0x399]);
  (0x1faa, [0x1f6a; 0x399]); (0x1fab, [0x1f6b; 0x399]);
  (0x1fac, [0x1f6c; 0x399]); (0x1fad, [0x1f6d; 0x399]);
  (0x1fae, [0x1f6e; 0x399]); (0x1faf, [0x1f6f; 0x399]);
  (0x1fb2, [0x1fba; 0x399]); (0x1fb3, [0x391; 0x399]);
  (0x1fb4, [0x386; 0x399]); (0x1fb6, [0x391; 0x342]);
  (0x1fb7, [0x391; 0x342; 0x399]); (0x1fbc, [0x391; 0x399]);
  (0x1fc2, [0x1fca; 0x399]); (0x1fc3, [0x397; 0x399]);
  (0x1fc4, [0x389; 0x399]); (0x1fc6, [0x397; 0x342]);
  (0x1fc7, [0x397; 0x342; 0x399]); (0x1fcc, [0x397; 0x399]);
  (0x1fd2, [0x399; 0x308; 0x300]); (0x1fd3, [0x399; 0x308; 0x301]);
  (0x1fd6, [0x399; 0x342]); (0x1fd7, [0x399; 0x308; 0x342]);
  (0x1fe2, [0x3a5; 0x308; 0x300]); (0x1fe3, [0x3a5; 0x308; 0x301]);
  (0x1fe4, [0x3a1; 0x313]); (0x1fe6, [0x3a5; 0x342]);
  (0x1fe7, [0x3a5; 0x308; 0x342]); (0x1ff2, [0x1ffa; 0x399]);
  (0x1ff3, [0x3a9; 0x399]); (0x1ff4, [0x38f; 0x399]);
  (0x1ff6, [0x3a9; 0x342]); (0x1ff7, [0x3a9; 0x342; 0x399]);
  (0x1ffc, [0x3a9; 0x399]); (0xfb00, [0x46; 0x46]); (0xfb01, [0x46; 0x49]);
  (0xfb02, [0x46; 0x4c]); (0xfb03, [0x46; 0x46; 0x49]);
  (0xfb04, [0x46; 0x46; 0x4c]); (0xfb05, [0x53; 0x54]);
  (0xfb06, [0x53; 0x54]); (0xfb13, [0x544; 0x546]); (0xfb14, [0x544; 0x535]);
  (0xfb15, [0x544; 0x53b]); (0xfb16, [0x54e; 0x546]);
  (0xfb17, [0x544; 0x53d]) ].

Definition in_ranges (c : N) (rs : list (N * N)) : bool :=
  existsb (fun r => (fst r <=? c) && (c <=? snd r)) rs.

Definition case_ignorable (c : N) : bool := in_ranges c case_ignorable_ranges.
Definition cased (c : N) : bool := in_ranges c cased_ranges.

Fixpoint in_runs (c : N) (rs : list (N * N * N * N)) : option N :=
  match rs with
  | [] => None
  | (first, last, step, target) :: rs' =>
      if (first <=? c) && (c <=? last) && ((c - first) mod step =? 0)
      then Some (target + (c - first))
      else in_runs c rs'
  end.

Fixpoint in_special (c : N) (sp : list (N * list N)) : option (list N) :=
  match sp with
  | [] => None
  | (k, l) :: sp' => if k =? c then Some l else in_special c sp'
  end.

(** The full case mapping of one code point: the special mapping if it has
    one, else the one-to-one mapping, else the code point itself. *)
Definition full_mapping (runs : list (N * N * N * N))
    (special : list (N * list N)) (c : N) : list N :=
  match in_special c special with
  | Some l => l
  | None =>
      match in_runs c runs with
      | Some t => [t]
      | None => [c]
      end
  end.

Definition to_lower_full : N -> list N := full_mapping lower_runs lower_special.
Definition to_upper_full : N -> list N := full_mapping upper_runs upper_special.

(** The first position that is not case-ignorable, if there is one. *)
Fixpoint skip_ignorable (l : list point) : option point :=
  match l with
  | [] => None
  | Char c :: l' => if case_ignorable c then skip_ignorable l' else Some (Char c)
  | Raw b :: _ => Some (Raw b)
  end.

Definition cased_point (p : point) : bool :=
  match p with
  | Char c => cased c
  | Raw _ => false
  end.

(** Capital sigma is in final position when a cased letter comes before it
    and none after it, case-ignorable positions skipped; [before] lists the
    preceding positions, the nearest first. *)
Definition final_sigma (before after : list point) : bool :=
  match skip_ignorable before with
  | Some p =>
      cased_point p &&
      match skip_ignorable after with
      | Some q => negb (cased_point q)
      | None => true
      end
  | None => false
  end.

Definition lower_point (before : list point) (p : point) (after : list point)
  : list point :=
  match p with
  | Char c =>
      if c =? 0x3A3
      then [Char (if final_sigma before after then 0x3C2 else 0x3C3)]
      else map Char (to_lower_full c)
  | Raw b => [Raw b]
  end.

Fixpoint lower_points (before l : list point) : list point :=
  match l with
  | [] => []
  | p :: after => lower_point before p after ++ lower_points (p :: before) after
  end.

Definition upper_point (p : point) : list point :=
  match p with
  | Char c => map Char (to_upper_full c)
  | Raw b => [Raw b]
  end.

End Unicode.

(** ** Python values and exceptions *)

Module Py.

(** Numbers as the JSON decoder produces them: [int] or [float]. *)
Inductive num : Type :=
| Int (n : Z)
| Float (x : float).

(** A value stored under a numeric key: [None] or a number. *)
Inductive val : Type :=
| PNone
| PNum (v : num).

Inductive exn : Type :=
| TypeError.

(** The outcome of evaluating an expression: a value or a raised exception. *)
Inductive py (A : Type) : Type :=
| Ok (a : A)
| Raise (e : exn).
Arguments Ok {A} a.
Arguments Raise {A} e.

#[global] Instance py_ret : MRet py := fun A a => Ok a.
#[global] Instance py_bind : MBind py := fun A B f m =>
  match m with
  | Ok a => f a
  | Raise e => Raise e
  end.

(** Exact comparison of an integer with a float, as CPython does it:
    the float is read as [m * 2^e]; [None] is the unordered case (NaN). *)
Definition Z_float_compare (n : Z) (x : float) : option comparison :=
  match FloatOps.Prim2SF x with
  | SpecFloat.S754_nan => None
  | SpecFloat.S754_infinity false => Some Lt
  | SpecFloat.S754_infinity true => Some Gt
  | SpecFloat.S754_zero _ => Some (n ?= 0)
  | SpecFloat.S754_finite s m e =>
      let v := if s then Z.neg m else Z.pos m in
      if 0 <=? e then Some (n ?= v * 2 ^ e) else Some (n * 2 ^ (- e) ?= v)
  end.

Definition num_lt (a b : num) : bool :=
  match a, b with
  | Int m, Int n => m <? n
  | Float x, Float y => PrimFloat.ltb x y
  | Int m, Float y =>
      match Z_float_compare m y with Some Lt => true | _ => false end
  | Float x, Int n =>
      match Z_float_compare n x with Some Gt => true | _ => false end
  end.

Definition num_le (a b : num) : bool :=
  match a, b with
  | Int m, Int n => m <=? n
  | Float x, Float y => PrimFloat.leb x y
  | Int m, Float y =>
      match Z_float_compare m y with Some Lt | Some Eq => true | _ => false end
  | Float x, Int n =>
      match Z_float_compare n x with Some Gt | Some Eq => true | _ => false end
  end.

Definition num_gt (a b : num) : bool := num_lt b a.
Definition num_ge (a b : num) : bool := num_le b a.

(** [a < b] on values: ordering [None] against a number raises. *)
Definition cmp (op : num -> num -> bool) (a b : val) : py bool :=
  match a, b with
  | PNum x, PNum y => Ok (op x y)
  | _, _ => Raise TypeError
  end.

Definition lt := cmp num_lt.
Definition le := cmp num_le.
Definition gt := cmp num_gt.
Definition ge := cmp num_ge.

(** [x and y] on comparison results: [y] is looked at only when [x] holds. *)
Definition and_ (x y : py bool) : py bool :=
  b ← x; if b : bool then y else Ok false.

(** [d.get(key, default)] on an optional field. *)
Definition get {A : Type} (field : option A) (dflt : A) : A :=
  match field with
  | Some v => v
  | None => dflt
  end.

(** Truth value of an optional string: [None] and [""] are false. *)
Definition truthy (s : option string) : bool :=
  match s with
  | Some EmptyString | None => false
  | Some (String _ _) => true
  end.

(** [str.lower]: every code point is replaced by its full lower-case
    mapping, capital sigma by the final or the medial small sigma
    according to its neighbours. *)
Definition lower (s : string) : string :=
  Unicode.encode (Unicode.lower_points [] (Unicode.decode s)).

(** [needle in hay] on strings. *)
Fixpoint str_in (needle hay : string) : bool :=
  if String.prefix needle hay then true
  else match hay with
       | EmptyString => false
       | String _ hay' => str_in needle hay'
       end.

(** [l[a:b]] for [0 <= a <= b]; a slice past the end is cut, not an error. *)
Definition slice {A : Type} (a b : nat) (l : list A) : list A :=
  firstn (b - a) (skipn a l).

(** [range(start, stop, step)] for a positive step. *)
Fixpoint range_from (fuel start stop step : nat) : list nat :=
  match fuel with
  | O => []
  | S fuel' =>
      if (start <? stop)%nat
      then start :: range_from fuel' (start + step) stop step
      else []
  end.

Definition range (start stop step : nat) : list nat :=
  range_from stop start stop step.

End Py.

Import Py.

(** ** The vibe classifier *)

Definition VIBES : list string :=
  [ "Chill Vibes"; "Sad Bops"; "Hype Gym"; "Night Drive"; "Lo-Fi Focus";
    "Romantic Mood" ]%string.

(** A descriptor set: the per-track dictionary with keys [valence],
    [energy], [danceability], [tempo] and [genres], each present or not. *)
Record descriptor : Type := Descriptor {
  valence : option val;
  energy : option val;
  danceability : option val;
  tempo : option val;
  genres : option (list string)
}.

(** The empty dictionary [{}]. *)
Definition no_features : descriptor :=
  Descriptor None None None None None.

(** The optional [openai] module: [None] when its import failed, otherwise
    the module with its [api_key] attribute. *)
Record openai_module : Type := OpenAI { api_key : option string }.

Definition classify_vibe (features : descriptor)
    (prompt openai_api_key : option string) (openai : option openai_module)
  : py string * option openai_module :=
  let valence := get (valence features) (PNum (Int 0)) in
  let energy := get (energy features) (PNum (Int 0)) in
  let dance := get (danceability features) (PNum (Int 0)) in
  let tempo := get (tempo features) (PNum (Int 0)) in
  let genres := map lower (get (genres features) []) in
  let rules : py (option string) :=
    r1 ← and_ (gt valence (PNum (Float 0.7))) (gt energy (PNum (Float 0.7)));
    if r1 : bool then Ok (Some "Hype Gym"%string) else
    r2 ← and_ (and_ (gt valence (PNum (Float 0.6))) (gt dance (PNum (Float 0.6))))
              (lt energy (PNum (Float 0.6)));
    if r2 : bool then Ok (Some "Chill Vibes"%string) else
    r3 ← and_ (lt valence (PNum (Float 0.3))) (lt energy (PNum (Float 0.5)));
    if r3 : bool then Ok (Some "Sad Bops"%string) else
    r4 ← and_ (and_ (le (PNum (Int 100)) tempo) (le tempo (PNum (Int 130))))
              (ge energy (PNum (Float 0.5)));
    if r4 : bool then Ok (Some "Night Drive"%string) else
    if existsb (str_in "lo-fi") genres then Ok (Some "Lo-Fi Focus"%string) else
    r6 ← and_ (ge valence (PNum (Float 0.5))) (lt energy (PNum (Float 0.6)));
    if r6 : bool then Ok (Some "Romantic Mood"%string) else
    Ok None in
  match rules with
  | Raise e => (Raise e, openai)
  | Ok (Some label) => (Ok label, openai)
  | Ok None =>
      let openai' :=
        if truthy prompt && truthy openai_api_key && bool_decide (is_Some openai)
        then Some (OpenAI openai_api_key)
        else openai in
      (Ok "Chill Vibes"%string, openai')
  end.

(** *** The rules as the specification words them

    Seven rules over the four numbers (an absent one read as 0) and the
    genre list, tried in order; the first that matches gives the label. *)

Definition rule1 (valence energy : num) : bool :=
  num_gt valence (Float 0.7) && num_gt energy (Float 0.7).

Definition rule2 (valence dance energy : num) : bool :=
  num_gt valence (Float 0.6) && num_gt dance (Float 0.6) &&
  num_lt energy (Float 0.6).

Definition rule3 (valence energy : num) : bool :=
  num_lt valence (Float 0.3) && num_lt energy (Float 0.5).

Definition rule4 (tempo energy : num) : bool :=
  num_le (Int 100) tempo && num_le tempo (Int 130) &&
  num_ge energy (Float 0.5).

Definition rule5 (genres : list string) : bool :=
  existsb (fun g => str_in "lo-fi" (lower g)) genres.

Definition rule6 (valence energy : num) : bool :=
  num_ge valence (Float 0.5) && num_lt energy (Float 0.6).

Definition classify_by_rules (valence energy dance tempo : num)
    (genres : list string) : string :=
  if rule1 valence energy then "Hype Gym"
  else if rule2 valence dance energy then "Chill Vibes"
  else if rule3 valence energy then "Sad Bops"
  else if rule4 tempo energy then "Night Drive"
  else if rule5 genres then "Lo-Fi Focus"
  else if rule6 valence energy then "Romantic Mood"
  else "Chill Vibes".

(** A field is well-typed for the classifier when it is absent or a number. *)
Definition number (field : option val) : Prop :=
  match field with
  | Some PNone => False
  | _ => True
  end.

Definition numeric_fields (features : descriptor) : Prop :=
  number (valence features) /\ number (energy features) /\
  number (danceability features) /\ number (tempo features).

(** The number a field stands for, an absent one standing for 0. *)
Definition num_or_zero (field : option val) : num :=
  match field with
  | Some (PNum x) => x
  | _ => Int 0
  end.

Definition genres_or_empty (features : descriptor) : list string :=
  get (genres features) [].

(** The label [classify_vibe] returns, the module state dropped. *)
Definition label_of (features : descriptor)
    (prompt openai_api_key : option string) (openai : option openai_module)
  : py string :=
  fst (classify_vibe features prompt openai_api_key openai).

(** Storing 0 under each absent numeric key. *)
Definition zero_if_absent (field : option val) : option val :=
  match field with
  | Some x => Some x
  | None => Some (PNum (Int 0))
  end.

Definition with_zero_defaults (features : descriptor) : descriptor :=
  Descriptor (zero_if_absent (valence features))
    (zero_if_absent (energy features))
    (zero_if_absent (danceability features))
    (zero_if_absent (tempo features)) (genres features).

(** Two genre strings with the same lower-cased form. *)
Definition same_up_to_case (g g' : string) : Prop := lower g = lower g'.

(** The upper-case form of a string ([str.upper]): every code point is
    replaced by its full upper-case mapping. *)
Definition upper (s : string) : string :=
  Unicode.encode (flat_map Unicode.upper_point (Unicode.decode s)).

(** Strings of ASCII characters, and the lower-casing of the letters A to Z
    in them; two such strings differ only in the case of letters when this
    gives the same string for both. *)
Fixpoint ascii_only (s : string) : bool :=
  match s with
  | EmptyString => true
  | String c s' => (nat_of_ascii c <? 128)%nat && ascii_only s'
  end.

Definition lower_ascii (c : ascii) : ascii :=
  let n := nat_of_ascii c in
  if ((65 <=? n) && (n <=? 90))%nat then ascii_of_nat (n + 32) else c.

Fixpoint ascii_lower (s : string) : string :=
  match s with
  | EmptyString => EmptyString
  | String c s' => String (lower_ascii c) (ascii_lower s')
  end.

Definition same_up_to_ascii_case (g g' : string) : Prop :=
  ascii_only g = true /\ ascii_only g' = true /\ ascii_lower g = ascii_lower g'.


(** ** The remote service

    The objects the endpoints return, with the fields the script reads.  A
    field read with [.get] is optional; a value tested for truth ([track],
    [artists], a feature record) is modelled by its truth value: [None] or
    the empty list stands for every falsy form. *)

Record artist_ref : Type := ArtistRef { artist_id : string }.

Record track_obj : Type := Track {
  track_id : string;
  track_name : option string;
  track_artists : list artist_ref
}.

(** An entry of the saved-track list: [{"track": ...}], the track object
    missing for an unavailable track. *)
Record saved_item : Type := SavedItem { track : option track_obj }.

Record page : Type := Page { items : option (list saved_item) }.

Record audio_feature : Type := AudioFeature {
  af_id : string;
  af_valence : option val;
  af_energy : option val;
  af_danceability : option val;
  af_tempo : option val
}.

Record artist_obj : Type := Artist { artist_genres : option (list string) }.

Record playlist_obj : Type := Playlist { playlist_id : string }.

(** The client [sp]: each call answers and moves the service to a new state. *)
Class Spotify (Sp : Type) : Type := {
  current_user_saved_tracks : Sp -> Z -> Z -> page * Sp;
  audio_features : Sp -> list string -> list (option audio_feature) * Sp;
  artists : Sp -> list string -> list artist_obj * Sp;
  user_playlist_create :
    Sp -> string -> string -> bool -> string -> playlist_obj * Sp;
  playlist_add_items : Sp -> string -> list string -> Sp
}.

(** *** A service that records the calls made to it *)

Inductive call : Type :=
| SavedTracks (limit offset : Z) (returned : list saved_item)
| AudioFeatures (ids : list string)
| Artists (ids : list string)
| PlaylistCreate (user name : string) (public : bool) (description : string)
    (created : string)
| PlaylistAddItems (playlist : string) (tracks : list string).

Record recorded (Sp : Type) : Type := Recorded {
  service : Sp;
  calls : list call
}.
Arguments Recorded {Sp} service calls.
Arguments service {Sp} r.
Arguments calls {Sp} r.

#[global] Instance recorded_spotify {Sp : Type} `{Spotify Sp}
  : Spotify (recorded Sp) := {|
  current_user_saved_tracks r limit offset :=
    let '(batch, s) := current_user_saved_tracks (service r) limit offset in
    (batch,
     Recorded s (calls r ++ [SavedTracks limit offset (get (items batch) [])]));
  audio_features r ids :=
    let '(feats, s) := audio_features (service r) ids in
    (feats, Recorded s (calls r ++ [AudioFeatures ids]));
  artists r ids :=
    let '(arts, s) := artists (service r) ids in
    (arts, Recorded s (calls r ++ [Artists ids]));
  user_playlist_create r user name public description :=
    let '(playlist, s) :=
      user_playlist_create (service r) user name public description in
    (playlist,
     Recorded s (calls r ++
       [PlaylistCreate user name public description (playlist_id playlist)]));
  playlist_add_items r playlist tracks :=
    Recorded (playlist_add_items (service r) playlist tracks)
      (calls r ++ [PlaylistAddItems playlist tracks])
|}.

(** The page requests among the recorded calls: requested size, offset
    and the items that came back. *)
Definition page_requests (cs : list call) : list (Z * Z * list saved_item) :=
  omap (fun c => match c with
                 | SavedTracks limit offset returned =>
                     Some (limit, offset, returned)
                 | _ => None
                 end) cs.

(** The playlists created among the recorded calls, by name. *)
Definition created_names (cs : list call) : list string :=
  omap (fun c => match c with
                 | PlaylistCreate _ name _ _ _ => Some name
                 | _ => None
                 end) cs.

(** ** The pipeline *)

Section Pipeline.

Context {Sp : Type} `{Spotify Sp}.

(** *** Paginated fetcher *)

(** The [while] loop of [fetch_liked_songs]; one unit of fuel per pass. *)
Fixpoint fetch_loop (fuel : nat) (sp : Sp) (limit : Z)
    (tracks : list saved_item) (offset : Z)
  : option (list saved_item * Sp) :=
  match fuel with
  | O => None
  | S fuel' =>
      if Z.of_nat (length tracks) <? limit then
        let '(batch, sp) :=
          current_user_saved_tracks sp
            (Z.min 50 (limit - Z.of_nat (length tracks))) offset in
        let items := get (items batch) [] in
        match items with
        | [] => Some (tracks, sp)
        | _ :: _ =>
            fetch_loop fuel' sp limit (tracks ++ items)
              (offset + Z.of_nat (length items))
        end
      else Some (tracks, sp)
  end.

Definition fetch_liked_songs (fuel : nat) (sp : Sp) (limit : Z)
  : option (list saved_item * Sp) :=
  fetch_loop fuel sp limit [] 0.

(** *** Feature aggregator *)

(** [t["track"]["id"]]: subscripting a missing track object raises. *)
Definition item_track_id (t : saved_item) : py string :=
  match track t with
  | Some tr => Ok (track_id tr)
  | None => Raise TypeError
  end.

(** The dictionary stored for a feature record: four keys, always
    present, each holding [af.get(key)]. *)
Definition numeric_entry (af : audio_feature) : descriptor :=
  Descriptor (Some (get (af_valence af) PNone))
    (Some (get (af_energy af) PNone))
    (Some (get (af_danceability af) PNone))
    (Some (get (af_tempo af) PNone)) None.

(** [for af in audio_feats: ...] *)
Fixpoint store_audio_features (features : gmap string descriptor)
    (audio_feats : list (option audio_feature)) : gmap string descriptor :=
  match audio_feats with
  | [] => features
  | None :: rest => store_audio_features features rest
  | Some af :: rest =>
      store_audio_features (<[af_id af := numeric_entry af]> features) rest
  end.

(** [for chunk in range(0, len(track_ids), 100): ...] *)
Fixpoint features_chunks (chunks : list nat) (sp : Sp)
    (track_ids : list string) (features : gmap string descriptor)
  : gmap string descriptor * Sp :=
  match chunks with
  | [] => (features, sp)
  | chunk :: rest =>
      let ids := slice chunk (chunk + 100) track_ids in
      let '(audio_feats, sp) := audio_features sp ids in
      features_chunks rest sp track_ids
        (store_audio_features features audio_feats)
  end.

(** [features[tid]["genres"] = g], the entry created when missing. *)
Definition set_genres (features : gmap string descriptor) (tid : string)
    (g : list string) : gmap string descriptor :=
  match features !! tid with
  | Some entry =>
      <[tid := Descriptor (valence entry) (energy entry)
                 (danceability entry) (tempo entry) (Some g)]> features
  | None => <[tid := Descriptor None None None None (Some g)]> features
  end.

(** [for track, artist in zip(...): ...] *)
Fixpoint merge_genres (features : gmap string descriptor)
    (pairs : list (saved_item * artist_obj)) : py (gmap string descriptor) :=
  match pairs with
  | [] => Ok features
  | (track, artist) :: rest =>
      tid ← item_track_id track;
      merge_genres (set_genres features tid (get (artist_genres artist) []))
        rest
  end.

(** [for chunk in range(0, len(artist_ids), 50): ...] *)
Fixpoint genre_chunks (chunks : list nat) (sp : Sp)
    (tracks : list saved_item) (artist_ids : list string)
    (features : gmap string descriptor)
  : py (gmap string descriptor * Sp) :=
  match chunks with
  | [] => Ok (features, sp)
  | chunk :: rest =>
      let ids := slice chunk (chunk + 50) artist_ids in
      let '(arts, sp) := artists sp ids in
      features ← merge_genres features
                   (combine (slice chunk (chunk + length ids) tracks) arts);
      genre_chunks rest sp tracks artist_ids features
  end.

(** [[t["track"]["id"] for t in tracks if t.get("track")]] *)
Definition track_ids_of (tracks : list saved_item) : list string :=
  omap (fun t => tr ← track t; Some (track_id tr)) tracks.

(** [[t["track"]["artists"][0]["id"] for t in tracks
     if t.get("track") and t["track"].get("artists")]] *)
Definition artist_ids_of (tracks : list saved_item) : list string :=
  omap (fun t => tr ← track t;
                 match track_artists tr with
                 | a :: _ => Some (artist_id a)
                 | [] => None
                 end) tracks.

Definition get_audio_features (sp : Sp) (tracks : list saved_item)
  : py (gmap string descriptor * Sp) :=
  let track_ids := track_ids_of tracks in
  let '(features, sp) :=
    features_chunks (range 0 (length track_ids) 100) sp track_ids ∅ in
  let artist_ids := artist_ids_of tracks in
  genre_chunks (range 0 (length artist_ids) 50) sp tracks artist_ids features.

(** *** Playlist materializer *)

(** [for vibe, tracks in vibe_tracks.items(): ...] *)
Fixpoint create_loop (sp : Sp) (user_id : string)
    (groups : list (string * list string)) (playlist_ids : gmap string string)
  : gmap string string * Sp :=
  match groups with
  | [] => (playlist_ids, sp)
  | (vibe, tracks) :: rest =>
      match tracks with
      | [] => create_loop sp user_id rest playlist_ids
      | _ :: _ =>
          let '(playlist, sp) :=
            user_playlist_create sp user_id vibe false
              ("VibePilot - " +:+ vibe)%string in
          let sp := playlist_add_items sp (playlist_id playlist) tracks in
          create_loop sp user_id rest
            (<[vibe := playlist_id playlist]> playlist_ids)
      end
  end.

(** [vibe_tracks] is the dictionary's item list, in insertion order. *)
Definition create_playlists (sp : Sp) (user_id : string)
    (vibe_tracks : list (string * list string)) : gmap string string * Sp :=
  create_loop sp user_id vibe_tracks ∅.

End Pipeline.

(** ** Reading a run of the fetcher off the recorded calls *)

Definition count (l : list saved_item) : Z := Z.of_nat (length l).

(** A page request as recorded: requested size, offset, items returned. *)
Definition request : Type := (Z * Z * list saved_item)%type.

Definition returned_items (q : request) : list saved_item := snd q.

Definition all_returned (reqs : list request) : list saved_item :=
  concat (map returned_items reqs).

(** Every request asks for [min(50, cap - collected)] items at the current
    offset, and both counters then advance by the number of items that
    came back. *)
Fixpoint paged (cap collected offset : Z) (reqs : list request) : Prop :=
  match reqs with
  | [] => True
  | (size, off, returned) :: rest =>
      size = Z.min 50 (cap - collected) /\ off = offset /\
      paged cap (collected + count returned) (offset + count returned) rest
  end.

(** A request is made only below the cap; an empty page is the last
    request; a non-empty page raises the count and the run goes on; the run
    ends without an empty page only at or above the cap. *)
Fixpoint run_shape (cap collected : Z) (reqs : list request) : Prop :=
  match reqs with
  | [] => cap <= collected
  | (_, _, returned) :: rest =>
      collected < cap /\
      match returned with
      | [] => rest = []
      | _ :: _ =>
          collected < collected + count returned /\
          run_shape cap (collected + count returned) rest
      end
  end.

(** The call a page request is recorded as. *)
Definition record_request (q : request) : call :=
  SavedTracks (fst (fst q)) (snd (fst q)) (snd q).

(** The service never returns more items than a request asked for. *)
Definition honours_size (q : request) : Prop :=
  count (returned_items q) <= fst (fst q).

(** The service returns exactly as many items as a request asked for. *)
Definition full_page (q : request) : Prop :=
  count (returned_items q) = fst (fst q).

(** ** Test doubles *)

(** An available track with the given identifier and artist identifiers. *)
Definition song (tid : string) (artist_ids : list string) : saved_item :=
  SavedItem (Some (Track tid None (map ArtistRef artist_ids))).

(** An entry whose track object is missing. *)
Definition unavailable : saved_item := SavedItem None.

(** A well-behaved service backed by fixed tables. *)
Record library : Type := Library {
  saved : list saved_item;
  feature_rows : list audio_feature;
  artist_rows : list (string * list string)
}.

#[global] Instance library_spotify : Spotify library := {|
  current_user_saved_tracks s limit offset :=
    (Page (Some (slice (Z.to_nat offset) (Z.to_nat (offset + limit)) (saved s))),
     s);
  audio_features s ids :=
    (map (fun i => find (fun af => String.eqb (af_id af) i) (feature_rows s))
       ids, s);
  artists s ids :=
    (map (fun i =>
            Artist (snd <$> find (fun row => String.eqb (fst row) i)
                              (artist_rows s))) ids, s);
  user_playlist_create s user name public description :=
    (Playlist ("playlist:" +:+ name)%string, s);
  playlist_add_items s playlist tracks := s
|}.

(** A service whose pages hold two entries whatever size was asked for. *)
Inductive overfull : Type := Overfull.

#[global] Instance overfull_spotify : Spotify overfull := {|
  current_user_saved_tracks s limit offset :=
    (Page (Some [unavailable; unavailable]), s);
  audio_features s ids := ([], s);
  artists s ids := ([], s);
  user_playlist_create s user name public description :=
    (Playlist ""%string, s);
  playlist_add_items s playlist tracks := s
|}.

(** A library of 200 saved tracks. *)
Definition two_hundred_songs : library :=
  Library (repeat (song "t" ["a"]) 200) [] [].

(** A library of three saved tracks. *)
Definition three_songs : library :=
  Library [song "t1" ["a1"]; song "t2" ["a2"]; song "t3" ["a3"]] [] [].

(** Descriptor sets used as examples. *)
Definition hype_features : descriptor :=
  Descriptor (Some (PNum (Float 0.75))) (Some (PNum (Float 0.75))) None None
    None.

Definition lofi_features (genre : string) : descriptor :=
  Descriptor (Some (PNum (Float 0.4))) (Some (PNum (Float 0.55))) None None
    (Some [genre]).

(** "lo-f" followed by the dotless small i (U+0131), whose upper-case
    form is the capital I of ASCII; and "LO-F" followed by the capital I
    with dot above (U+0130), whose lower-case form is an [i] and a
    combining dot. *)
Definition lofi_dotless : string :=
  ("lo-f" +:+ Unicode.text [0x131%N])%string.

Definition lofi_dotted : string :=
  ("LO-F" +:+ Unicode.text [0x130%N])%string.

(** The same descriptor set with another genre list. *)
Definition with_genres (features : descriptor) (gs : list string)
  : descriptor :=
  Descriptor (valence features) (energy features) (danceability features)
    (tempo features) (Some gs).

(** ** Reading a run of the aggregator

    The answers of the two bulk endpoints, gathered over the sub-batches in
    the order the aggregator asks for them. *)

Definition numeric_part (e : descriptor)
  : option val * option val * option val * option val :=
  (valence e, energy e, danceability e, tempo e).

(** The numeric fields held for a track, none when it has no entry. *)
Definition numeric_of (entry : option descriptor)
  : option val * option val * option val * option val :=
  match entry with
  | Some e => numeric_part e
  | None => (None, None, None, None)
  end.

(** The last non-null feature record that carries [tid]. *)
Fixpoint latest (tid : string) (feats : list (option audio_feature))
  : option audio_feature :=
  match feats with
  | [] => None
  | r :: rest =>
      match latest tid rest with
      | Some af => Some af
      | None =>
          match r with
          | Some af => if decide (af_id af = tid) then Some af else None
          | None => None
          end
      end
  end.

Definition has_track (t : saved_item) : Prop := is_Some (track t).

Section AggregatorRun.

Context {Sp : Type} `{Spotify Sp}.

(** All feature records returned, sub-batch after sub-batch. *)
Fixpoint feature_responses (chunks : list nat) (sp : Sp)
    (track_ids : list string) : list (option audio_feature) :=
  match chunks with
  | [] => []
  | chunk :: rest =>
      let '(audio_feats, sp) :=
        audio_features sp (slice chunk (chunk + 100) track_ids) in
      audio_feats ++ feature_responses rest sp track_ids
  end.

(** All (entry, artist) pairs the genre pass walks through. *)
Fixpoint genre_pairs (chunks : list nat) (sp : Sp)
    (tracks : list saved_item) (artist_ids : list string)
  : list (saved_item * artist_obj) :=
  match chunks with
  | [] => []
  | chunk :: rest =>
      let ids := slice chunk (chunk + 50) artist_ids in
      let '(arts, sp) := artists sp ids in
      combine (slice chunk (chunk + length ids) tracks) arts ++
      genre_pairs rest sp tracks artist_ids
  end.

(** The first pass of [get_audio_features] on its own. *)
Definition numeric_pass (sp : Sp) (tracks : list saved_item)
  : gmap string descriptor * Sp :=
  features_chunks (range 0 (length (track_ids_of tracks)) 100) sp
    (track_ids_of tracks) ∅.

Definition numeric_responses (sp : Sp) (tracks : list saved_item)
  : list (option audio_feature) :=
  feature_responses (range 0 (length (track_ids_of tracks)) 100) sp
    (track_ids_of tracks).

(** The identifiers under which the genre pass stores a genre list. *)
Definition paired_ids (sp : Sp) (tracks : list saved_item) : list string :=
  track_ids_of
    (map fst
       (genre_pairs (range 0 (length (artist_ids_of tracks)) 50)
          (snd (numeric_pass sp tracks)) tracks (artist_ids_of tracks))).

End AggregatorRun.

(** A library for the aggregator: [t1] has an artist, [t2] lists none,
    [t3] has an artist but no feature data. *)
Definition mixed_tracks : list saved_item :=
  [song "t1" ["a1"]; song "t2" []; song "t3" ["a3"]].

Definition mixed_library : library :=
  Library mixed_tracks
    [ AudioFeature "t1" (Some (PNum (Float 0.8))) (Some (PNum (Float 0.8)))
        (Some (PNum (Float 0.5))) (Some (PNum (Float 120)));
      AudioFeature "t2" (Some (PNum (Float 0.2))) (Some (PNum (Float 0.3)))
        (Some (PNum (Float 0.5))) (Some (PNum (Float 90))) ]
    [ ("a1", ["rock"]); ("a3", ["lo-fi"]) ]%string.

(** A feature record that omits [valence]. *)
Definition partial_library : library :=
  Library [song "t1" []]
    [ AudioFeature "t1" None (Some (PNum (Float 0.5)))
        (Some (PNum (Float 0.5))) (Some (PNum (Float 90))) ] [].

(** Both tracks have feature data; only [t1] lists an artist. *)
Definition plain_tracks : list saved_item :=
  [song "t1" ["a1"]; song "t2" []].

Definition plain_library : library :=
  Library plain_tracks
    [ AudioFeature "t1" (Some (PNum (Float 0.8))) (Some (PNum (Float 0.8)))
        (Some (PNum (Float 0.5))) (Some (PNum (Float 120)));
      AudioFeature "t2" (Some (PNum (Float 0.2))) (Some (PNum (Float 0.3)))
        (Some (PNum (Float 0.5))) (Some (PNum (Float 90))) ]
    [ ("a1", ["rock"]) ]%string.

(** ** Reading a run of the materializer *)

(** The groups that hold at least one track, in order. *)
Definition nonempty_groups (vibe_tracks : list (string * list string))
  : list (string * list string) :=
  List.filter (fun g => match snd g with [] => false | _ :: _ => true end)
    vibe_tracks.

(** A grouping with an empty group in it. *)
Definition sample_grouping : list (string * list string) :=
  [ ("Hype Gym", ["t1"]); ("Lo-Fi Focus", []); ("Sad Bops", ["t2"; "t3"]) ]%string.

(** The entry the aggregator's result holds for a track. *)
Definition entry_of {Sp : Type} (tid : string)
    (result : py (gmap string descriptor * Sp)) : py (option descriptor) :=
  match result with
  | Ok (features, _) => Ok (features !! tid)
  | Raise e => Raise e
  end.

(** ** Further readings of the classifier and the aggregator *)

(** A feature record that holds a number under each of the four keys. *)
Definition holds_number (field : option val) : Prop :=
  match field with
  | Some (PNum _) => True
  | _ => False
  end.

Definition complete (af : audio_feature) : Prop :=
  holds_number (af_valence af) /\ holds_number (af_energy af) /\
  holds_number (af_danceability af) /\ holds_number (af_tempo af).

(** Every feature record that is not null is complete. *)
Definition all_complete (feats : list (option audio_feature)) : Prop :=
  Forall (fun r => match r with Some af => complete af | None => True end)
    feats.

(** [features.get(tid, {})], as the caller of the classifier reads it. *)
Definition features_get (features : gmap string descriptor) (tid : string)
  : descriptor :=
  default no_features (features !! tid).

(** A descriptor set that no rule matches: the classifier falls through. *)
Definition fallthrough_features : descriptor :=
  Descriptor (Some (PNum (Float 0.4))) (Some (PNum (Float 0.7))) None None
    None.

(** ** Reading the bulk requests off the recorded calls *)

(** The identifier lists of the feature requests among the calls. *)
Definition feature_requests (cs : list call) : list (list string) :=
  omap (fun c => match c with
                 | AudioFeatures ids => Some ids
                 | _ => None
                 end) cs.

(** The identifier lists of the artist requests among the calls. *)
Definition artist_requests (cs : list call) : list (list string) :=
  omap (fun c => match c with
                 | Artists ids => Some ids
                 | _ => None
                 end) cs.

(** A sub-batch: not empty and no longer than [size]. *)
Definition batch_of (size : nat) (ids : list string) : Prop :=
  (0 < length ids <= size)%nat.

(** The sub-batches of [l]: the slices [l[c:c+size]] for [c] in
    [range(0, len(l), size)]. *)
Definition batches {A : Type} (size : nat) (l : list A) : list (list A) :=
  map (fun c => slice c (c + size) l) (range 0 (length l) size).

(** ** Reading the genre pass on a well-formed track list *)

(** [t["track"]["artists"][0]["id"]], when the entry has a track object
    that lists an artist. *)
Definition first_artist (t : saved_item) : option string :=
  tr ← track t;
  match track_artists tr with
  | a :: _ => Some (artist_id a)
  | [] => None
  end.

(** The genre list stored for an artist object: [artist.get("genres", [])]. *)
Definition genres_of (a : artist_obj) : list string :=
  get (artist_genres a) [].

(** The genres key of the entry held for a track, if there is an entry. *)
Definition genres_under (features : gmap string descriptor) (tid : string)
  : option (option (list string)) :=
  genres <$> features !! tid.

(** ** Reading the materializer's calls *)

(** The two calls that materialize one group under the playlist
    identifier the service returned for it. *)
Definition materialize_calls (user_id : string)
    (group : string * list string * string) : list call :=
  let '(vibe, tracks, pid) := group in
  [ PlaylistCreate user_id vibe false ("VibePilot - " +:+ vibe)%string pid;
    PlaylistAddItems pid tracks ].

(** ** The driver: grouping, logging, and the run as a whole *)

(** An entry of the run log: [{"id": ..., "name": ..., "vibe": ...}]. *)
Record log_entry : Type := LogEntry {
  entry_id : string;
  entry_name : option string;
  entry_vibe : string
}.

(** The log of a run, as handed to [save_logs]. *)
Record log_data : Type := LogData {
  tracks_processed : nat;
  playlists : gmap string string;
  entries : list log_entry
}.

(** [vibe_tracks[vibe].append(tid)] on a [defaultdict(list)], the
    dictionary as its item list in insertion order: a label seen for the
    first time gets a new list at the end. *)
Fixpoint append_to_group (vibe tid : string)
    (vibe_tracks : list (string * list string))
  : list (string * list string) :=
  match vibe_tracks with
  | [] => [(vibe, [tid])]
  | (v, tids) :: rest =>
      if decide (v = vibe) then (v, tids ++ [tid]) :: rest
      else (v, tids) :: append_to_group vibe tid rest
  end.

(** [for item in liked_tracks: ...] of [main]. *)
Fixpoint classify_tracks (liked_tracks : list saved_item)
    (features : gmap string descriptor) (prompt openai_key : option string)
    (openai : option openai_module)
    (vibe_tracks : list (string * list string)) (log_entries : list log_entry)
  : py (list (string * list string) * list log_entry) * option openai_module :=
  match liked_tracks with
  | [] => (Ok (vibe_tracks, log_entries), openai)
  | item :: rest =>
      match track item with
      | None =>
          classify_tracks rest features prompt openai_key openai vibe_tracks
            log_entries
      | Some tr =>
          let tid := track_id tr in
          let '(result, openai) :=
            classify_vibe (features_get features tid) prompt openai_key
              openai in
          match result with
          | Raise e => (Raise e, openai)
          | Ok vibe =>
              classify_tracks rest features prompt openai_key openai
                (append_to_group vibe tid vibe_tracks)
                (log_entries ++ [LogEntry tid (track_name tr) vibe])
          end
      end
  end.

(** The identifiers logged with a given label, in log order. *)
Definition ids_with_vibe (vibe : string) (log_entries : list log_entry)
  : list string :=
  map entry_id
    (List.filter (fun e => bool_decide (entry_vibe e = vibe)) log_entries).

(** The body of [main] from the fetch on: [user_id] is what
    [sp.current_user()["id"]] gave, [prompt] the command-line option,
    [openai_key] the environment variable; the result is the log handed to
    [save_logs] and the service as the run leaves it. *)
Definition main_body {Sp : Type} `{Spotify Sp} (fuel : nat) (sp : Sp)
    (user_id : string) (prompt openai_key : option string)
    (openai : option openai_module)
  : option (py (log_data * Sp) * option openai_module) :=
  match fetch_liked_songs fuel sp 1000 with
  | None => None
  | Some (liked_tracks, sp) =>
      Some
        match get_audio_features sp liked_tracks with
        | Raise e => (Raise e, openai)
        | Ok (features, sp) =>
            match classify_tracks liked_tracks features prompt openai_key
                    openai [] [] with
            | (Raise e, openai) => (Raise e, openai)
            | (Ok (vibe_tracks, log_entries), openai) =>
                let '(playlist_ids, sp) :=
                  create_playlists sp user_id vibe_tracks in
                (Ok (LogData (length log_entries) playlist_ids log_entries,
                     sp), openai)
            end
        end
  end.

(** The grouping and the log agree: one list per label, no list empty,
    each list the identifiers logged with its label in log order, and
    every logged label a key of the grouping. *)
Definition grouped (groups : list (string * list string))
    (log_entries : list log_entry) : Prop :=
  NoDup (map fst groups) /\
  (forall vibe tids,
     In (vibe, tids) groups ->
     tids <> [] /\ tids = ids_with_vibe vibe log_entries) /\
  (forall e, In e log_entries -> In (entry_vibe e) (map fst groups)).

(** * Proofs *)

Ltac split_ifs :=
  repeat (match goal with
          | |- context [if ?b then _ else _] =>
              lazymatch b with
              | context [if _ then _ else _] => fail
              | andb _ _ => fail
              | _ => destruct b eqn:?
              end
          end; cbn [andb fst]).

Example classify_empty :
  label_of no_features None None None = Ok "Sad Bops"%string.
Proof. reflexivity. Qed.

(** Comparisons of numbers, as Python evaluates them. *)
Example int_below_float : num_lt (Int 0) (Float 0.3) = true.
Proof. reflexivity. Qed.

Example int_above_float : num_gt (Int 1) (Float 0.7) = true.
Proof. reflexivity. Qed.

Example float_not_below_itself : num_lt (Float 0.7) (Float 0.7) = false.
Proof. reflexivity. Qed.

Example int_equals_float : num_le (Int 100) (Float 100) = true.
Proof. reflexivity. Qed.

Example float_above_int : num_le (Float 130.5) (Int 130) = false.
Proof. reflexivity. Qed.

Example nan_is_unordered :
  num_lt (Int 0) (Float nan) = false /\ num_gt (Int 0) (Float nan) = false /\
  num_le (Float nan) (Float nan) = false.
Proof. repeat split; reflexivity. Qed.

Example none_is_not_ordered : gt PNone (PNum (Float 0.7)) = Raise TypeError.
Proof. reflexivity. Qed.

Example and_short_circuits :
  and_ (gt (PNum (Int 0)) (PNum (Float 0.7))) (gt PNone (PNum (Float 0.7)))
  = Ok false.
Proof. reflexivity. Qed.

Example range_by_hundred : range 0 250 100 = [0; 100; 200]%nat.
Proof. reflexivity. Qed.

Example range_of_nothing : range 0 0 50 = [].
Proof. reflexivity. Qed.

Example slice_past_the_end : slice 2 5 [1; 2; 3; 4] = [3; 4].
Proof. reflexivity. Qed.

Example lower_mixed_case : lower "Lo-Fi Beats" = "lo-fi beats"%string.
Proof. reflexivity. Qed.

(** Outside ASCII: the capital I with dot above gives [i] and a combining
    dot, the dotless small i stays as it is, and a capital sigma at the end
    of a word gives the final small sigma. *)
Example lower_dotted_capital_i :
  lower lofi_dotted = ("lo-fi" +:+ Unicode.text [0x307%N])%string.
Proof. vm_compute; reflexivity. Qed.

Example lower_dotless_i : lower lofi_dotless = lofi_dotless.
Proof. vm_compute; reflexivity. Qed.

Example lower_final_sigma :
  lower (Unicode.text [0x39F; 0x3A3; 0x20; 0x3A3; 0x39F]%N) =
  Unicode.text [0x3BF; 0x3C2; 0x20; 0x3C3; 0x3BF]%N.
Proof. vm_compute; reflexivity. Qed.

Example str_in_found : str_in "lo-fi" "chill lo-fi beats" = true.
Proof. reflexivity. Qed.

Example str_in_missing : str_in "lo-fi" "lofi" = false.
Proof. reflexivity. Qed.

(** ** Facts about strings *)

Lemma append_cons (c : ascii) (p q : string) :
  (String c p +:+ q)%string = String c (p +:+ q)%string.
Proof. reflexivity. Qed.

Lemma append_nil (q : string) : ("" +:+ q)%string = q.
Proof. reflexivity. Qed.

Lemma prefix_app (p s : string) :
  String.prefix p s = true <-> exists post, s = (p +:+ post)%string.
Proof.
  revert s; induction p as [|c p IH]; intros s.
  - split; [intros _; exists s; reflexivity | intros _; now destruct s].
  - destruct s as [|c' s]; simpl.
    + split; [discriminate | intros [post H]; discriminate].
    + destruct (Ascii.ascii_dec c c') as [->|Hne].
      * rewrite IH. split; intros [post H]; exists post;
          rewrite append_cons in *; congruence.
      * split; [discriminate |].
        intros [post H]; rewrite append_cons in H; congruence.
Qed.

Lemma str_in_nil (needle : string) :
  str_in needle "" = String.prefix needle "".
Proof. simpl. now destruct needle. Qed.

Lemma str_in_cons (needle : string) (c : ascii) (hay : string) :
  str_in needle (String c hay) =
  if String.prefix needle (String c hay) then true else str_in needle hay.
Proof. reflexivity. Qed.

Lemma str_in_app (needle hay : string) :
  str_in needle hay = true <->
  exists pre post, hay = (pre +:+ needle +:+ post)%string.
Proof.
  induction hay as [|c hay IH]; [rewrite str_in_nil | rewrite str_in_cons].
  - destruct (String.prefix needle "") eqn:Hp.
    + apply prefix_app in Hp as [post Hp].
      split; [intros _; exists ""%string, post; exact Hp | reflexivity].
    + split; [discriminate |].
      intros [pre [post H]]. destruct pre; [|discriminate].
      rewrite append_nil in H.
      assert (String.prefix needle "" = true) by (apply prefix_app; eauto).
      congruence.
  - destruct (String.prefix needle (String c hay)) eqn:Hp.
    + apply prefix_app in Hp as [post Hp].
      split; [intros _; exists ""%string, post; exact Hp | reflexivity].
    + rewrite IH. split.
      * intros [pre [post H]]. exists (String c pre), post.
        rewrite append_cons. congruence.
      * intros [pre [post H]]. destruct pre as [|c' pre].
        -- rewrite append_nil in H.
           assert (String.prefix needle (String c hay) = true)
             by (apply prefix_app; eauto).
           congruence.
        -- rewrite append_cons in H. exists pre, post. congruence.
Qed.

Lemma existsb_map_lower (f : string -> bool) (gs : list string) :
  existsb f (map lower gs) = existsb (fun g => f (lower g)) gs.
Proof.
  induction gs as [|g gs IH]; simpl; [reflexivity | now rewrite IH].
Qed.

(** ** The classifier follows the rules *)

Lemma classify_vibe_rules features prompt key openai :
  numeric_fields features ->
  label_of features prompt key openai =
  Ok (classify_by_rules (num_or_zero (valence features))
        (num_or_zero (energy features)) (num_or_zero (danceability features))
        (num_or_zero (tempo features)) (genres_or_empty features)).
Proof.
  destruct features as [fv fe fd ft fg].
  unfold numeric_fields, label_of, classify_vibe, classify_by_rules, genres_or_empty,
    rule1, rule2, rule3, rule4, rule5, rule6.
  cbn [valence energy danceability tempo genres].
  intros (Hv & He & Hd & Ht).
  rewrite existsb_map_lower.
  assert (Hget : forall f, number f -> get f (PNum (Int 0)) = PNum (num_or_zero f)).
  { intros [[|x]|]; simpl; tauto. }
  rewrite !Hget by assumption.
  generalize (num_or_zero fv) (num_or_zero fe) (num_or_zero fd) (num_or_zero ft).
  intros v e d t.
  unfold gt, ge, lt, le, cmp, and_, mbind, py_bind.
  repeat (match goal with
          | |- context [if ?b then _ else _] =>
              lazymatch b with
              | context [if _ then _ else _] => fail
              | andb _ _ => fail
              | _ => destruct b eqn:?
              end
          end; cbn [andb fst]); reflexivity.
Qed.

(** X1.  Whatever the descriptor set holds under its numeric keys, a label
    that [classify_vibe] returns is one of the six of [VIBES]. *)
Lemma classify_vibe_label_in_VIBES features prompt key openai l :
  label_of features prompt key openai = Ok l -> In l VIBES.
Proof.
  destruct features as [fv fe fd ft fg].
  unfold label_of, classify_vibe.
  cbn [valence energy danceability tempo genres].
  generalize (get fv (PNum (Int 0))) (get fe (PNum (Int 0)))
    (get fd (PNum (Int 0))) (get ft (PNum (Int 0))).
  intros [|v] [|e] [|d] [|t];
    unfold gt, ge, lt, le, cmp, and_, mbind, py_bind;
    split_ifs; cbn [fst];
    intros H; try discriminate H; injection H as <-; simpl; tauto.
Qed.

Lemma classify_by_rules_in_VIBES v e d t gs :
  In (classify_by_rules v e d t gs) VIBES.
Proof.
  unfold classify_by_rules.
  destruct (rule1 v e), (rule2 v d e), (rule3 v e), (rule4 t e), (rule5 gs),
    (rule6 v e); simpl; tauto.
Qed.

Lemma classify_vibe_zero_defaults features prompt key openai :
  classify_vibe features prompt key openai =
  classify_vibe (with_zero_defaults features) prompt key openai.
Proof. now destruct features as [[?|] [?|] [?|] [?|] ?]. Qed.

(** On a string of ASCII characters [str.lower] changes the letters A to Z
    and nothing else. *)
Lemma decode_ascii (a : ascii) (s : string) :
  (nat_of_ascii a <? 128)%nat = true ->
  Unicode.decode (String a s) =
  Unicode.Char (N_of_ascii a) :: Unicode.decode s.
Proof.
  destruct a as [[] [] [] [] [] [] [] []]; intros Ha;
    first [discriminate Ha | reflexivity].
Qed.

Lemma lower_point_ascii (a : ascii) (before after : list Unicode.point) :
  (nat_of_ascii a <? 128)%nat = true ->
  Unicode.encode
    (Unicode.lower_point before (Unicode.Char (N_of_ascii a)) after) =
  String (lower_ascii a) "".
Proof.
  destruct a as [[] [] [] [] [] [] [] []]; intros Ha;
    first [discriminate Ha | vm_compute; reflexivity].
Qed.

Lemma append_assoc (p q r : string) :
  ((p +:+ q) +:+ r)%string = (p +:+ (q +:+ r))%string.
Proof.
  induction p as [|c p IH]; [now rewrite !append_nil |].
  now rewrite !append_cons, IH.
Qed.

Lemma encode_app (l1 l2 : list Unicode.point) :
  Unicode.encode (l1 ++ l2) =
  (Unicode.encode l1 +:+ Unicode.encode l2)%string.
Proof.
  unfold Unicode.encode.
  induction l1 as [|p l1 IH]; cbn [app fold_right].
  - now rewrite append_nil.
  - rewrite IH. symmetry. apply append_assoc.
Qed.

Lemma lower_points_ascii (s : string) :
  ascii_only s = true ->
  forall before,
    Unicode.encode (Unicode.lower_points before (Unicode.decode s)) =
    ascii_lower s.
Proof.
  induction s as [|a s IH]; [reflexivity |].
  cbn [ascii_only ascii_lower]. intros Hs before.
  apply andb_true_iff in Hs as [Ha Hs].
  rewrite (decode_ascii a s Ha). cbn [Unicode.lower_points].
  rewrite encode_app, (lower_point_ascii a _ _ Ha), IH by exact Hs.
  now rewrite append_cons, append_nil.
Qed.

Lemma lower_ascii_only (s : string) :
  ascii_only s = true -> lower s = ascii_lower s.
Proof. intros Hs. apply lower_points_ascii, Hs. Qed.

Lemma same_up_to_ascii_case_lower (g g' : string) :
  same_up_to_ascii_case g g' -> same_up_to_case g g'.
Proof.
  intros (Hg & Hg' & Heq). unfold same_up_to_case.
  now rewrite !lower_ascii_only by assumption.
Qed.

Lemma map_lower_same_up_to_case (gs gs' : list string) :
  Forall2 same_up_to_case gs gs' -> map lower gs = map lower gs'.
Proof.
  induction 1 as [|g g' gs gs' Hg _ IH]; simpl; [reflexivity |].
  now rewrite Hg, IH.
Qed.

Lemma rule5_true (gs : list string) :
  rule5 gs = true <->
  exists g pre post, In g gs /\ lower g = (pre +:+ "lo-fi" +:+ post)%string.
Proof.
  unfold rule5. rewrite existsb_exists. split.
  - intros (g & Hin & Hg). apply str_in_app in Hg as (pre & post & Hg). eauto.
  - intros (g & pre & post & Hin & Hg). exists g. split; [exact Hin |].
    apply str_in_app. eauto.
Qed.

(** ** The paginated fetcher *)

Section FetcherFacts.

Context {Sp : Type} `{Spotify Sp}.

Lemma page_requests_record (reqs : list request) :
  page_requests (map record_request reqs) = reqs.
Proof.
  induction reqs as [|[[size off] ret] reqs IH]; [reflexivity |].
  cbn. unfold page_requests in IH. now rewrite IH.
Qed.

Lemma count_app (l1 l2 : list saved_item) :
  count (l1 ++ l2) = count l1 + count l2.
Proof. unfold count. rewrite length_app. lia. Qed.

Lemma count_nonneg (l : list saved_item) : 0 <= count l.
Proof. unfold count. lia. Qed.

Lemma run_shape_cons cap collected size off x xs rest :
  collected < cap ->
  run_shape cap (collected + count (x :: xs)) rest ->
  run_shape cap collected ((size, off, x :: xs) :: rest).
Proof.
  intros Hlt Hrest. cbn [run_shape]. repeat split; [exact Hlt | | exact Hrest].
  unfold count; simpl; lia.
Qed.

(** The loop, run against a recording service with enough fuel, returns;
    what it returns and what it asked for are tied together by the
    requests it made. *)
Lemma fetch_loop_recorded (fuel : nat) :
  forall (r : recorded Sp) (limit : Z) (tracks : list saved_item) (offset : Z),
    (Z.to_nat (limit - count tracks) < fuel)%nat ->
    exists reqs r',
      fetch_loop fuel r limit tracks offset =
        Some (tracks ++ all_returned reqs, r') /\
      calls r' = calls r ++ map record_request reqs /\
      paged limit (count tracks) offset reqs /\
      run_shape limit (count tracks) reqs.
Proof.
  induction fuel as [|fuel IH]; intros r limit tracks offset Hfuel; [lia |].
  cbn [fetch_loop]. fold (count tracks).
  destruct (count tracks <? limit) eqn:Hlt.
  - apply Z.ltb_lt in Hlt.
    cbn [current_user_saved_tracks recorded_spotify].
    destruct (current_user_saved_tracks (service r)
                (Z.min 50 (limit - count tracks)) offset) as [batch s] eqn:Hcall.
    cbn [calls service].
    destruct (get (items batch) []) as [|x xs] eqn:Hitems.
    + exists [(Z.min 50 (limit - count tracks), offset, [])],
        (Recorded s (calls r ++
           [SavedTracks (Z.min 50 (limit - count tracks)) offset []])).
      split; [cbn; now rewrite app_nil_r |].
      repeat split; try reflexivity; lia.
    + assert (Hpos : 0 < count (x :: xs)) by (unfold count; simpl; lia).
      destruct (IH (Recorded s (calls r ++
                     [SavedTracks (Z.min 50 (limit - count tracks)) offset
                        (x :: xs)]))
                  limit (tracks ++ x :: xs) (offset + count (x :: xs)))
        as (reqs & r' & Hrun & Hcalls & Hpaged & Hshape).
      { rewrite count_app. lia. }
      exists ((Z.min 50 (limit - count tracks), offset, x :: xs) :: reqs), r'.
      rewrite count_app in Hpaged, Hshape.
      split; [|split; [|split]].
      * fold (count (x :: xs)). rewrite Hrun. unfold all_returned.
        cbn [map concat returned_items snd]. now rewrite <- app_assoc.
      * rewrite Hcalls. cbn [calls map]. rewrite <- app_assoc. reflexivity.
      * cbn [paged]. auto.
      * apply run_shape_cons; [lia | exact Hshape].
  - apply Z.ltb_ge in Hlt.
    exists [], r. cbn. rewrite !app_nil_r. auto.
Qed.

(** Against any service, the loop returns once the fuel exceeds the
    number of items still missing. *)
Lemma fetch_loop_total (fuel : nat) :
  forall (sp : Sp) (limit : Z) (tracks : list saved_item) (offset : Z),
    (Z.to_nat (limit - count tracks) < fuel)%nat ->
    is_Some (fetch_loop fuel sp limit tracks offset).
Proof.
  induction fuel as [|fuel IH]; intros sp limit tracks offset Hfuel; [lia |].
  cbn [fetch_loop]. fold (count tracks).
  destruct (count tracks <? limit) eqn:Hlt; [|eauto].
  apply Z.ltb_lt in Hlt.
  destruct (current_user_saved_tracks sp _ offset) as [batch s].
  destruct (get (items batch) []) as [|x xs]; [eauto |].
  apply IH. rewrite count_app. unfold count at 2. simpl. lia.
Qed.

(** More fuel never changes what the loop returns. *)
Lemma fetch_loop_more_fuel (fuel : nat) :
  forall (fuel' : nat) (sp : Sp) (limit : Z) (tracks : list saved_item)
         (offset : Z) (result : list saved_item * Sp),
    (fuel <= fuel')%nat ->
    fetch_loop fuel sp limit tracks offset = Some result ->
    fetch_loop fuel' sp limit tracks offset = Some result.
Proof.
  induction fuel as [|fuel IH]; intros fuel' sp limit tracks offset result Hle Hrun;
    [discriminate Hrun |].
  destruct fuel' as [|fuel']; [lia |].
  cbn [fetch_loop] in *.
  destruct (Z.of_nat (length tracks) <? limit); [|exact Hrun].
  destruct (current_user_saved_tracks sp _ offset) as [batch s].
  destruct (get (items batch) []) as [|x xs]; [exact Hrun |].
  apply IH; [lia | exact Hrun].
Qed.

End FetcherFacts.

(** *** What the recorded requests say about a run *)

Lemma all_returned_cons (q : request) (reqs : list request) :
  all_returned (q :: reqs) = returned_items q ++ all_returned reqs.
Proof. reflexivity. Qed.

Lemma all_returned_app (pre post : list request) :
  all_returned (pre ++ post) = all_returned pre ++ all_returned post.
Proof. unfold all_returned. now rewrite map_app, concat_app. Qed.

Lemma paged_bound (cap : Z) (reqs : list request) :
  forall collected offset,
    collected <= cap ->
    paged cap collected offset reqs ->
    Forall honours_size reqs ->
    collected + count (all_returned reqs) <= cap.
Proof.
  induction reqs as [|[[size off] ret] reqs IH]; intros collected offset Hle Hp Hh.
  - change (count (all_returned [])) with 0. lia.
  - cbn [paged] in Hp. destruct Hp as (Hsize & _ & Hp).
    inversion Hh as [|q qs Hq Hqs]; subst q qs.
    unfold honours_size in Hq. cbn [returned_items fst snd] in Hq.
    rewrite all_returned_cons, count_app. cbn [returned_items snd].
    assert (Hle' : collected + count ret <= cap) by lia.
    specialize (IH (collected + count ret) (offset + count ret) Hle' Hp Hqs).
    lia.
Qed.

Lemma run_shape_empty_page (cap : Z) (pre : list request) :
  forall collected reqs q post,
    run_shape cap collected reqs ->
    reqs = pre ++ q :: post ->
    returned_items q = [] ->
    post = [] /\ collected + count (all_returned pre) < cap.
Proof.
  induction pre as [|[[size off] ret] pre IH]; intros collected reqs q post Hs -> Hq.
  - destruct q as [[size off] ret]. cbn in Hq. subst ret.
    cbn in Hs. destruct Hs as [Hlt ->].
    change (count (all_returned [])) with 0. split; [reflexivity | lia].
  - cbn [app run_shape] in Hs. destruct Hs as [Hlt Hs].
    destruct ret as [|x xs].
    + destruct pre; discriminate Hs.
    + destruct Hs as [_ Hs].
      destruct (IH _ _ q post Hs eq_refl Hq) as [-> Hb].
      rewrite all_returned_cons, count_app. cbn [returned_items snd].
      split; [reflexivity | lia].
Qed.

Lemma run_shape_reaches_cap (cap : Z) (reqs : list request) :
  forall collected,
    run_shape cap collected reqs ->
    Forall (fun q => returned_items q <> []) reqs ->
    cap <= collected + count (all_returned reqs).
Proof.
  induction reqs as [|[[size off] ret] reqs IH]; intros collected Hs Hne.
  - change (count (all_returned [])) with 0. cbn in Hs. lia.
  - inversion Hne as [|q qs Hq Hqs]; subst q qs. cbn in Hq.
    cbn [run_shape] in Hs. destruct Hs as [_ Hs].
    destruct ret as [|x xs]; [congruence |].
    destruct Hs as [_ Hs]. apply IH in Hs; [|assumption].
    rewrite all_returned_cons, count_app. cbn [returned_items snd]. lia.
Qed.

Lemma full_pages_of_120 (reqs : list request) :
  paged 120 0 0 reqs ->
  run_shape 120 0 reqs ->
  Forall full_page reqs ->
  map fst reqs = [(50, 0); (50, 50); (20, 100)].
Proof.
  assert (Hstep : forall collected q rest,
    paged 120 collected collected (q :: rest) ->
    run_shape 120 collected (q :: rest) ->
    Forall full_page (q :: rest) ->
    fst q = (Z.min 50 (120 - collected), collected) /\
    (0 < Z.min 50 (120 - collected) ->
     paged 120 (collected + Z.min 50 (120 - collected))
       (collected + Z.min 50 (120 - collected)) rest /\
     run_shape 120 (collected + Z.min 50 (120 - collected)) rest /\
     Forall full_page rest)).
  { intros collected [[size off] ret] rest Hp Hs Hf.
    cbn [paged] in Hp. destruct Hp as (-> & -> & Hp).
    inversion Hf as [|q qs Hq Hqs]; subst q qs.
    unfold full_page in Hq. cbn [returned_items fst snd] in Hq.
    split; [reflexivity |]. intros Hpos.
    cbn [run_shape] in Hs. destruct Hs as [_ Hs].
    destruct ret as [|x xs]; [change (count []) with 0 in Hq; lia |].
    destruct Hs as [_ Hs]. rewrite Hq in Hp, Hs. auto. }
  intros Hp Hs Hf.
  destruct reqs as [|q1 reqs]; [cbn in Hs; lia |].
  destruct (Hstep 0 q1 reqs Hp Hs Hf) as (H1 & Hrest).
  destruct Hrest as (Hp1 & Hs1 & Hf1); [lia |].
  change (0 + Z.min 50 (120 - 0)) with 50 in *.
  destruct reqs as [|q2 reqs]; [cbn in Hs1; lia |].
  destruct (Hstep 50 q2 reqs Hp1 Hs1 Hf1) as (H2 & Hrest).
  destruct Hrest as (Hp2 & Hs2 & Hf2); [lia |].
  change (50 + Z.min 50 (120 - 50)) with 100 in *.
  destruct reqs as [|q3 reqs]; [cbn in Hs2; lia |].
  destruct (Hstep 100 q3 reqs Hp2 Hs2 Hf2) as (H3 & Hrest).
  destruct Hrest as (Hp3 & Hs3 & Hf3); [lia |].
  change (100 + Z.min 50 (120 - 100)) with 120 in *.
  destruct reqs as [|[[size off] ret] reqs].
  - cbn [map]. rewrite H1, H2, H3. reflexivity.
  - cbn [run_shape] in Hs3. lia.
Qed.

Section FetcherClaims.

Context {Sp : Type} `{Spotify Sp}.

Lemma fetch_liked_songs_recorded (sp : Sp) (limit : Z) (fuel : nat) :
  (Z.to_nat limit < fuel)%nat ->
  exists tracks r',
    fetch_liked_songs fuel (Recorded sp []) limit = Some (tracks, r') /\
    calls r' = map record_request (page_requests (calls r')) /\
    tracks = all_returned (page_requests (calls r')) /\
    paged limit 0 0 (page_requests (calls r')) /\
    run_shape limit 0 (page_requests (calls r')).
Proof.
  intros Hfuel.
  destruct (fetch_loop_recorded fuel (Recorded sp []) limit [] 0)
    as (reqs & r' & Hrun & Hcalls & Hpaged & Hshape).
  { change (count []) with 0. now rewrite Z.sub_0_r. }
  cbn [calls app] in Hcalls.
  exists (all_returned reqs), r'.
  rewrite Hcalls, page_requests_record. auto.
Qed.

(** C3 (amended).  Run against any service with a cap [limit], the
    fetcher returns, and the page requests it made are exactly these:
    each asks for [min(50, limit - collected so far)] items at an offset
    that has advanced by the number of items actually returned, and no
    other call is made.  The returned list is the in-order concatenation
    of the pages.  When the cap is not negative and no page holds more
    items than its request asked for, the list is no longer than the
    cap.  With a cap of 120 and pages as large as requested, the
    requests are exactly three, of sizes 50, 50, 20 at offsets 0, 50,
    100. *)
Theorem fetch_requests_within_cap (sp : Sp) (limit : Z) (fuel : nat) :
  (Z.to_nat limit < fuel)%nat ->
  exists tracks r',
    fetch_liked_songs fuel (Recorded sp []) limit = Some (tracks, r') /\
    calls r' = map record_request (page_requests (calls r')) /\
    paged limit 0 0 (page_requests (calls r')) /\
    tracks = all_returned (page_requests (calls r')) /\
    (0 <= limit ->
     Forall honours_size (page_requests (calls r')) ->
     count tracks <= limit) /\
    (limit = 120 ->
     Forall full_page (page_requests (calls r')) ->
     map fst (page_requests (calls r')) = [(50, 0); (50, 50); (20, 100)]).
Proof.
  intros Hfuel.
  destruct (fetch_liked_songs_recorded sp limit fuel Hfuel)
    as (tracks & r' & Hrun & Hcalls & Htracks & Hpaged & Hshape).
  exists tracks, r'. repeat (split; [assumption |]). split.
  - intros Hlimit Hsize. rewrite Htracks.
    apply (paged_bound limit _ 0 0) in Hpaged; [lia | lia | assumption].
  - intros -> Hfull. now apply full_pages_of_120.
Qed.

(** C4.  The fetch loop terminates against every service: with more fuel
    than the cap it returns, whatever the pages hold.  The requests it
    made have the shape of the loop: a request is made only below the
    cap; a page with zero items is the last request, and the list
    returned is then the partial list collected before it, shorter than
    the cap; a page with items strictly raises the count; and a run in
    which no page was empty ends with the count at or above the cap. *)
Theorem fetch_terminates (sp : Sp) (limit : Z) (fuel : nat) :
  (Z.to_nat limit < fuel)%nat ->
  is_Some (fetch_liked_songs fuel sp limit) /\
  exists tracks r',
    fetch_liked_songs fuel (Recorded sp []) limit = Some (tracks, r') /\
    tracks = all_returned (page_requests (calls r')) /\
    run_shape limit 0 (page_requests (calls r')) /\
    (forall pre q post,
       page_requests (calls r') = pre ++ q :: post ->
       returned_items q = [] ->
       post = [] /\ tracks = all_returned pre /\ count tracks < limit) /\
    (Forall (fun q => returned_items q <> []) (page_requests (calls r')) ->
     limit <= count tracks).
Proof.
  intros Hfuel. split.
  { apply fetch_loop_total. change (count []) with 0. now rewrite Z.sub_0_r. }
  destruct (fetch_liked_songs_recorded sp limit fuel Hfuel)
    as (tracks & r' & Hrun & Hcalls & Htracks & Hpaged & Hshape).
  exists tracks, r'. repeat (split; [assumption |]). split.
  - intros pre q post Hreqs Hq.
    destruct (run_shape_empty_page limit pre 0 _ q post Hshape Hreqs Hq)
      as [-> Hlt].
    assert (Hpre : tracks = all_returned pre).
    { rewrite Htracks, Hreqs, all_returned_app, all_returned_cons, Hq.
      cbn. now rewrite app_nil_r. }
    rewrite Hpre. split; [reflexivity |]. split; [reflexivity | lia].
  - intros Hne. rewrite Htracks.
    apply run_shape_reaches_cap in Hshape; [lia | assumption].
Qed.

End FetcherClaims.

(** C3, witness: a cap of 120 against a library of 200 tracks. *)
Lemma fetch_requests_within_cap_witness :
  exists tracks r',
    fetch_liked_songs 121 (Recorded two_hundred_songs []) 120 = Some (tracks, r') /\
    count tracks <= 120 /\
    map fst (page_requests (calls r')) = [(50, 0); (50, 50); (20, 100)].
Proof.
  assert (Hfuel : (Z.to_nat 120 < 121)%nat) by (simpl; lia).
  destruct (fetch_requests_within_cap two_hundred_songs 120 121 Hfuel)
    as (tracks & r' & Hrun & _ & _ & _ & Hbound & Hpages).
  exists tracks, r'. split; [exact Hrun |].
  vm_compute in Hrun. injection Hrun as <- <-.
  split.
  - apply Hbound; [lia |].
    repeat constructor; unfold honours_size; vm_compute; discriminate.
  - apply Hpages; [reflexivity |].
    repeat constructor.
Defined.

(** C3, counterexample: against a service whose page holds two entries
    when one was asked for, a cap of 1 yields a list of two items. *)
Lemma fetch_exceeds_cap_on_overfull_page :
  exists tracks r',
    fetch_liked_songs 2 (Recorded Overfull []) 1 = Some (tracks, r') /\
    page_requests (calls r') = [(1, 0, [unavailable; unavailable])] /\
    ~ count tracks <= 1.
Proof.
  eexists _, _. split; [reflexivity |]. split; [reflexivity |].
  unfold count; simpl; lia.
Qed.

(** C4, witness: a cap of 1000 against a library of three tracks; the
    second page is empty and the three tracks collected are returned. *)
Lemma fetch_terminates_witness :
  exists tracks r',
    fetch_liked_songs 1001 (Recorded three_songs []) 1000 = Some (tracks, r') /\
    tracks = saved three_songs /\
    map fst (page_requests (calls r')) = [(50, 0); (50, 3)].
Proof.
  assert (Hfuel : (Z.to_nat 1000 < 1001)%nat) by (simpl; lia).
  destruct (fetch_terminates three_songs 1000 1001 Hfuel)
    as (_ & tracks & r' & Hrun & _).
  exists tracks, r'. split; [exact Hrun |].
  vm_compute in Hrun. injection Hrun as <- <-. split; reflexivity.
Defined.

(** ** The classifier: the claims *)

(** C2.  For every descriptor set whose numeric fields are absent or
    numbers, [classify_vibe] returns the label of the first rule that
    matches, the rules tried in this order: Hype Gym if valence > 0.7 and
    energy > 0.7; else Chill Vibes if valence > 0.6, danceability > 0.6
    and energy < 0.6; else Sad Bops if valence < 0.3 and energy < 0.5;
    else Night Drive if 100 <= tempo <= 130 and energy >= 0.5; else Lo-Fi
    Focus if some genre contains "lo-fi" whatever its case; else Romantic
    Mood if valence >= 0.5 and energy < 0.6; else Chill Vibes; an absent
    number is read as 0.  In particular a set matching rule 1 and rule 3
    resolves to Hype Gym. *)
Theorem classify_vibe_first_match features prompt key openai :
  numeric_fields features ->
  label_of features prompt key openai =
    Ok (classify_by_rules (num_or_zero (valence features))
          (num_or_zero (energy features))
          (num_or_zero (danceability features))
          (num_or_zero (tempo features)) (genres_or_empty features)) /\
  (rule1 (num_or_zero (valence features)) (num_or_zero (energy features))
     = true ->
   label_of features prompt key openai = Ok "Hype Gym"%string) /\
  (rule1 (num_or_zero (valence features)) (num_or_zero (energy features))
     = false ->
   (rule2 (num_or_zero (valence features))
      (num_or_zero (danceability features)) (num_or_zero (energy features))
      = true ->
    label_of features prompt key openai = Ok "Chill Vibes"%string) /\
   (rule2 (num_or_zero (valence features))
      (num_or_zero (danceability features)) (num_or_zero (energy features))
      = false ->
    (rule3 (num_or_zero (valence features)) (num_or_zero (energy features))
       = true ->
     label_of features prompt key openai = Ok "Sad Bops"%string) /\
    (rule3 (num_or_zero (valence features)) (num_or_zero (energy features))
       = false ->
     (rule4 (num_or_zero (tempo features)) (num_or_zero (energy features))
        = true ->
      label_of features prompt key openai = Ok "Night Drive"%string) /\
     (rule4 (num_or_zero (tempo features)) (num_or_zero (energy features))
        = false ->
      (rule5 (genres_or_empty features) = true ->
       label_of features prompt key openai = Ok "Lo-Fi Focus"%string) /\
      (rule5 (genres_or_empty features) = false ->
       (rule6 (num_or_zero (valence features))
          (num_or_zero (energy features)) = true ->
        label_of features prompt key openai = Ok "Romantic Mood"%string) /\
       (rule6 (num_or_zero (valence features))
          (num_or_zero (energy features)) = false ->
        label_of features prompt key openai = Ok "Chill Vibes"%string)))))) /\
  (rule1 (num_or_zero (valence features)) (num_or_zero (energy features))
     = true ->
   rule3 (num_or_zero (valence features)) (num_or_zero (energy features))
     = true ->
   label_of features prompt key openai = Ok "Hype Gym"%string).
Proof.
  intros Hnum. rewrite classify_vibe_rules by assumption.
  unfold classify_by_rules.
  split; [reflexivity |].
  repeat match goal with
         | |- _ /\ _ => split
         | |- _ = true -> _ => let H := fresh in intros H; try rewrite H
         | |- _ = false -> _ => let H := fresh in intros H; try rewrite H
         end; reflexivity.
Qed.

(** C2, witness: valence 0.75 and energy 0.75 give Hype Gym. *)
Lemma classify_vibe_first_match_witness :
  label_of hype_features None None None = Ok "Hype Gym"%string.
Proof.
  assert (Hnum : numeric_fields hype_features) by (cbv; tauto).
  destruct (classify_vibe_first_match hype_features None None None Hnum)
    as [Hlabel _].
  rewrite Hlabel. reflexivity.
Defined.

(** C5.  For every descriptor set whose numeric fields are absent or
    numbers, and every genre list, [classify_vibe] returns a label, and the
    label is one of the six of [VIBES]. *)
Theorem classify_vibe_total features prompt key openai :
  numeric_fields features ->
  exists l, label_of features prompt key openai = Ok l /\ In l VIBES.
Proof.
  intros Hnum. eexists. split; [now apply classify_vibe_rules |].
  apply classify_by_rules_in_VIBES.
Qed.

(** C5, witness: the empty descriptor set gets a label of [VIBES]. *)
Lemma classify_vibe_total_witness :
  exists l, label_of no_features None None None = Ok l /\ In l VIBES.
Proof.
  apply classify_vibe_total. cbv. tauto.
Defined.

(** C6, counterexample: the empty descriptor set is not classified as
    Chill Vibes; the zero defaults match rule 3 and give Sad Bops. *)
Lemma empty_descriptor_is_not_chill :
  label_of no_features None None None = Ok "Sad Bops"%string /\
  label_of no_features None None None <> Ok "Chill Vibes"%string.
Proof. split; [reflexivity | discriminate]. Qed.

(** C6 (amended).  A numeric key that is absent is tolerated and read as
    zero: for every descriptor set whose numeric fields are absent or
    numbers, [classify_vibe] returns a label, the one it returns when 0 is
    stored under each absent key; the empty descriptor set is classified
    as Sad Bops. *)
Theorem classify_vibe_absent_is_zero features prompt key openai :
  numeric_fields features ->
  (exists l, label_of features prompt key openai = Ok l) /\
  label_of features prompt key openai =
    label_of (with_zero_defaults features) prompt key openai /\
  label_of no_features prompt key openai = Ok "Sad Bops"%string.
Proof.
  intros Hnum. split; [|split].
  - eexists. now apply classify_vibe_rules.
  - unfold label_of. now rewrite classify_vibe_zero_defaults.
  - reflexivity.
Qed.

(** C6, witness: a descriptor set holding genres only. *)
Lemma classify_vibe_absent_is_zero_witness :
  label_of (Descriptor None None None None (Some ["pop"%string])) None None None =
  label_of (Descriptor (Some (PNum (Int 0))) (Some (PNum (Int 0)))
              (Some (PNum (Int 0))) (Some (PNum (Int 0)))
              (Some ["pop"%string])) None None None.
Proof.
  assert (Hnum : numeric_fields
                   (Descriptor None None None None (Some ["pop"%string])))
    by (cbv; tauto).
  destruct (classify_vibe_absent_is_zero _ None None None Hnum) as (_ & Hzero & _).
  exact Hzero.
Defined.

(** C8.  The text-generation hook is inert: whatever the prompt, the
    credential and the state of the [openai] module, [classify_vibe]
    returns the label it returns without them.  The function reaches no
    service: it has none among its arguments, and its one effect is that
    the module's [api_key] may be set to the credential. *)
Theorem classify_vibe_hook_inert features prompt key openai :
  label_of features prompt key openai = label_of features None None openai /\
  snd (classify_vibe features None None openai) = openai /\
  (snd (classify_vibe features prompt key openai) = openai \/
   snd (classify_vibe features prompt key openai) = Some (OpenAI key)).
Proof.
  unfold label_of, classify_vibe.
  match goal with
  | |- context [match ?r with Ok _ => _ | Raise _ => _ end] => generalize r
  end.
  intros [[l|]|x]; cbn [fst snd]; repeat split; auto.
  destruct (truthy prompt && truthy key && bool_decide (is_Some openai)); auto.
Qed.

(** C10, where the claim as worded fails: the dotless small i is a letter
    whose upper-case form is the capital I.  With rules 1 to 4 not
    matching, the genre "lo-f" with a dotless i does not trigger rule 5,
    and the same genre in upper case, "LO-FI", does. *)
Lemma upper_case_of_dotless_i_changes_label :
  upper lofi_dotless = "LO-FI"%string /\
  rule1 (Float 0.4) (Float 0.55) = false /\
  rule2 (Float 0.4) (Int 0) (Float 0.55) = false /\
  rule3 (Float 0.4) (Float 0.55) = false /\
  rule4 (Int 0) (Float 0.55) = false /\
  label_of (lofi_features lofi_dotless) None None None =
    Ok "Chill Vibes"%string /\
  label_of (lofi_features (upper lofi_dotless)) None None None =
    Ok "Lo-Fi Focus"%string.
Proof. repeat split; vm_compute; reflexivity. Qed.

(** C10 (amended).  Rule 5 matches genres by their lower-cased form.  For a
    descriptor set with numeric fields that rules 1 to 4 do not match,
    [classify_vibe] returns Lo-Fi Focus as soon as the lower-cased form of
    some genre contains "lo-fi"; two descriptor sets with the same numeric
    fields whose genre strings have the same lower-cased forms get the
    same result; and so do two whose genre strings are made of ASCII
    characters and differ only in the case of letters. *)
Theorem classify_vibe_genre_case features prompt key openai :
  (numeric_fields features ->
   rule1 (num_or_zero (valence features)) (num_or_zero (energy features))
     = false ->
   rule2 (num_or_zero (valence features))
     (num_or_zero (danceability features)) (num_or_zero (energy features))
     = false ->
   rule3 (num_or_zero (valence features)) (num_or_zero (energy features))
     = false ->
   rule4 (num_or_zero (tempo features)) (num_or_zero (energy features))
     = false ->
   (exists g pre post,
      In g (genres_or_empty features) /\
      lower g = (pre +:+ "lo-fi" +:+ post)%string) ->
   label_of features prompt key openai = Ok "Lo-Fi Focus"%string) /\
  (forall gs gs',
     Forall2 same_up_to_case gs gs' ->
     classify_vibe (with_genres features gs) prompt key openai =
     classify_vibe (with_genres features gs') prompt key openai) /\
  (forall gs gs',
     Forall2 same_up_to_ascii_case gs gs' ->
     classify_vibe (with_genres features gs) prompt key openai =
     classify_vibe (with_genres features gs') prompt key openai).
Proof.
  assert (Hsame : forall gs gs',
            Forall2 same_up_to_case gs gs' ->
            classify_vibe (with_genres features gs) prompt key openai =
            classify_vibe (with_genres features gs') prompt key openai).
  { intros gs gs' Hcase. unfold classify_vibe, with_genres.
    cbn [valence energy danceability tempo genres get].
    now rewrite (map_lower_same_up_to_case gs gs' Hcase). }
  split; [|split; [exact Hsame |]].
  - intros Hnum H1 H2 H3 H4 Hg.
    rewrite classify_vibe_rules by assumption.
    unfold classify_by_rules. rewrite H1, H2, H3, H4.
    apply rule5_true in Hg. now rewrite Hg.
  - intros gs gs' Hcase. apply Hsame.
    eapply Forall2_impl; [exact Hcase |].
    intros g g'. apply same_up_to_ascii_case_lower.
Qed.

(** C10, witness: "Lo-Fi Beats" and "lo-fi" both give Lo-Fi Focus, and
    "lo-fi" gives what "LO-FI" gives. *)
Lemma classify_vibe_genre_case_witness :
  label_of (lofi_features "Lo-Fi Beats") None None None = Ok "Lo-Fi Focus"%string /\
  label_of (lofi_features "lo-fi") None None None =
    label_of (lofi_features "LO-FI") None None None /\
  label_of (lofi_features "Lo-Fi Beats") None None None =
    label_of (lofi_features "lO-fI bEATS") None None None.
Proof.
  split; [|split].
  - apply (classify_vibe_genre_case (lofi_features "Lo-Fi Beats") None None None);
      try reflexivity; [cbv; tauto |].
    exists "Lo-Fi Beats"%string, ""%string, " beats"%string.
    split; [simpl; tauto | vm_compute; reflexivity].
  - destruct (classify_vibe_genre_case (lofi_features "") None None None)
      as (_ & Hcase & _).
    assert (Hsame : Forall2 same_up_to_case ["lo-fi"%string] ["LO-FI"%string])
      by (repeat constructor; vm_compute; reflexivity).
    exact (f_equal fst (Hcase _ _ Hsame)).
  - destruct (classify_vibe_genre_case (lofi_features "") None None None)
      as (_ & _ & Hcase).
    assert (Hsame : Forall2 same_up_to_ascii_case
                      ["Lo-Fi Beats"%string] ["lO-fI bEATS"%string])
      by (repeat constructor).
    exact (f_equal fst (Hcase _ _ Hsame)).
Defined.

(** The capital I with dot above lower-cases to an [i] followed by a
    combining dot, so "LO-F" followed by it triggers rule 5. *)
Example lofi_dotted_capital_i :
  label_of (lofi_features lofi_dotted) None None None = Ok "Lo-Fi Focus"%string.
Proof. vm_compute; reflexivity. Qed.

Example lofi_lower_case :
  label_of (lofi_features "lo-fi") None None None = Ok "Lo-Fi Focus"%string.
Proof. reflexivity. Qed.

(** Without numeric data the zero defaults match rule 3 first, so a set
    holding lo-fi genres only is Sad Bops. *)
Example lofi_genres_only :
  label_of (Descriptor None None None None (Some ["lo-fi"%string])) None None None
  = Ok "Sad Bops"%string.
Proof. reflexivity. Qed.

(** ** The feature aggregator *)

Section AggregatorFacts.

Context {Sp : Type} `{Spotify Sp}.

Lemma store_audio_features_app features feats1 feats2 :
  store_audio_features features (feats1 ++ feats2) =
  store_audio_features (store_audio_features features feats1) feats2.
Proof.
  revert features; induction feats1 as [|[af|] feats1 IH]; intros features;
    cbn [app store_audio_features]; auto.
Qed.

(** A null record stores nothing; a record stores its entry under the
    identifier it carries, a later record for the same identifier
    replacing an earlier one. *)
Lemma store_audio_features_lookup feats :
  forall (features : gmap string descriptor) (tid : string),
    store_audio_features features feats !! tid =
    match latest tid feats with
    | Some af => Some (numeric_entry af)
    | None => features !! tid
    end.
Proof.
  induction feats as [|[af|] feats IH]; intros features tid;
    cbn [store_audio_features latest]; [reflexivity | |].
  - rewrite IH. destruct (latest tid feats) as [af'|]; [reflexivity |].
    destruct (decide (af_id af = tid)) as [<-|Hne].
    + apply lookup_insert_eq.
    + now apply lookup_insert_ne.
  - rewrite IH. now destruct (latest tid feats).
Qed.

Lemma features_chunks_responses chunks :
  forall (sp : Sp) track_ids features,
    fst (features_chunks chunks sp track_ids features) =
    store_audio_features features (feature_responses chunks sp track_ids).
Proof.
  induction chunks as [|chunk chunks IH]; intros sp track_ids features;
    cbn [features_chunks feature_responses]; [reflexivity |].
  destruct (audio_features sp (slice chunk (chunk + 100) track_ids))
    as [feats sp'].
  now rewrite IH, store_audio_features_app.
Qed.

Lemma numeric_pass_lookup (sp : Sp) tracks tid :
  fst (numeric_pass sp tracks) !! tid =
  numeric_entry <$> latest tid (numeric_responses sp tracks).
Proof.
  unfold numeric_pass, numeric_responses.
  rewrite features_chunks_responses, store_audio_features_lookup.
  destruct (latest tid _); [reflexivity | apply lookup_empty].
Qed.

(** Storing a genre list under [tid0] leaves every numeric field alone,
    drops no key, and changes no other entry. *)
Lemma set_genres_numeric features tid0 g tid :
  numeric_of (set_genres features tid0 g !! tid) =
  numeric_of (features !! tid).
Proof.
  unfold set_genres.
  destruct (decide (tid0 = tid)) as [->|Hne].
  - destruct (features !! tid) as [e|] eqn:He;
      rewrite lookup_insert_eq; reflexivity.
  - destruct (features !! tid0); now rewrite lookup_insert_ne.
Qed.

Lemma set_genres_is_Some features tid0 g tid :
  is_Some (features !! tid) -> is_Some (set_genres features tid0 g !! tid).
Proof.
  unfold set_genres. intros Hsome.
  destruct (decide (tid0 = tid)) as [->|Hne].
  - destruct (features !! tid); rewrite lookup_insert_eq; eauto.
  - destruct (features !! tid0); now rewrite lookup_insert_ne.
Qed.

Lemma set_genres_other features tid0 g tid :
  tid0 <> tid -> set_genres features tid0 g !! tid = features !! tid.
Proof.
  unfold set_genres. intros Hne.
  destruct (features !! tid0); now rewrite lookup_insert_ne.
Qed.

Lemma track_ids_of_cons (t : saved_item) (ts : list saved_item) :
  track_ids_of (t :: ts) =
  match track t with
  | Some tr => track_id tr :: track_ids_of ts
  | None => track_ids_of ts
  end.
Proof. unfold track_ids_of. cbn. now destruct (track t). Qed.

Lemma merge_genres_keeps pairs :
  forall features features' tid,
    merge_genres features pairs = Ok features' ->
    numeric_of (features' !! tid) = numeric_of (features !! tid) /\
    (is_Some (features !! tid) -> is_Some (features' !! tid)) /\
    (~ In tid (track_ids_of (map fst pairs)) ->
     features' !! tid = features !! tid).
Proof.
  induction pairs as [|[t a] pairs IH]; intros features features' tid Hrun.
  - injection Hrun as <-. auto.
  - cbn [merge_genres] in Hrun. unfold item_track_id in Hrun.
    cbn [map fst]. rewrite track_ids_of_cons.
    destruct (track t) as [tr|]; [|discriminate Hrun].
    cbn [mbind py_bind] in Hrun.
    destruct (IH _ _ tid Hrun) as (Hnum & Hsome & Hother).
    split; [|split].
    + now rewrite Hnum, set_genres_numeric.
    + intros Hs. now apply Hsome, set_genres_is_Some.
    + intros Hnot. rewrite Hother.
      * apply set_genres_other. intros Heq. apply Hnot. now left.
      * intros Hin. apply Hnot. now right.
Qed.

Lemma merge_genres_app pairs1 :
  forall features pairs2,
    merge_genres features (pairs1 ++ pairs2) =
    (features' ← merge_genres features pairs1; merge_genres features' pairs2).
Proof.
  induction pairs1 as [|[t a] pairs1 IH]; intros features pairs2;
    [reflexivity |].
  cbn [app merge_genres]. destruct (item_track_id t) as [tid|e];
    [|reflexivity].
  cbn [mbind py_bind]. apply IH.
Qed.

(** The genre pass, when it returns, has merged the pairs in order. *)
Lemma genre_chunks_pairs chunks :
  forall (sp sp' : Sp) tracks artist_ids features features',
    genre_chunks chunks sp tracks artist_ids features = Ok (features', sp') ->
    merge_genres features (genre_pairs chunks sp tracks artist_ids) =
      Ok features'.
Proof.
  induction chunks as [|chunk chunks IH];
    intros sp sp' tracks artist_ids features features' Hrun;
    cbn [genre_chunks genre_pairs] in *.
  - now injection Hrun as <- <-.
  - destruct (artists sp (slice chunk (chunk + 50) artist_ids)) as [arts sp1].
    rewrite merge_genres_app.
    destruct (merge_genres features _) as [features1|e]; [|discriminate Hrun].
    cbn [mbind py_bind] in *. eauto.
Qed.

(** With a track object in every entry the genre pass raises nothing. *)
Lemma merge_genres_total pairs :
  forall features,
    Forall has_track (map fst pairs) ->
    exists features', merge_genres features pairs = Ok features'.
Proof.
  induction pairs as [|[t a] pairs IH]; intros features Hall;
    cbn [merge_genres]; [eauto |].
  inversion Hall as [|t' ts [tr Htr] Hts]; subst.
  unfold item_track_id. rewrite Htr. cbn [mbind py_bind]. now apply IH.
Qed.

Lemma Forall_slice {A : Type} (P : A -> Prop) a b (l : list A) :
  Forall P l -> Forall P (slice a b l).
Proof.
  intros Hall. unfold slice. now apply Forall_take, Forall_drop.
Qed.

Lemma Forall_combine_fst {A B : Type} (P : A -> Prop) (l : list A)
    (l' : list B) :
  Forall P l -> Forall P (map fst (combine l l')).
Proof.
  intros Hall. rewrite !List.Forall_forall in *. intros x Hin.
  apply in_map_iff in Hin as ([a b] & <- & Hin).
  apply in_combine_l in Hin. auto.
Qed.

Lemma genre_chunks_total chunks :
  forall (sp : Sp) tracks artist_ids features,
    Forall has_track tracks ->
    exists features' sp',
      genre_chunks chunks sp tracks artist_ids features = Ok (features', sp').
Proof.
  induction chunks as [|chunk chunks IH];
    intros sp tracks artist_ids features Hall; cbn [genre_chunks]; [eauto |].
  destruct (artists sp (slice chunk (chunk + 50) artist_ids)) as [arts sp1].
  destruct (merge_genres_total
              (combine (slice chunk
                          (chunk + length (slice chunk (chunk + 50) artist_ids))
                          tracks) arts) features) as [features1 ->].
  { now apply Forall_combine_fst, Forall_slice. }
  cbn [mbind py_bind]. now apply IH.
Qed.

End AggregatorFacts.

Section AggregatorClaims.

Context {Sp : Type} `{Spotify Sp}.

(** X14.  What the aggregator keeps when data is missing.  A null
    feature record is skipped: after the numeric pass a
    track has an entry exactly when some non-null record carried its
    identifier, and the entry is that of the last such record.  With a
    track object in every entry the aggregator returns a mapping.
    Whenever it returns one, every track keeps the numeric fields the
    numeric pass gave it (none if it gave none), a track the numeric
    pass gave an entry is still in the mapping, and a track under whose
    identifier the genre pass stored nothing has exactly its numeric
    entry, without a genres key. *)
Theorem missing_data_keeps_tracks (sp : Sp) (tracks : list saved_item) :
  (forall tid,
     fst (numeric_pass sp tracks) !! tid =
     numeric_entry <$> latest tid (numeric_responses sp tracks)) /\
  (Forall has_track tracks ->
   exists features sp', get_audio_features sp tracks = Ok (features, sp')) /\
  (forall features sp',
     get_audio_features sp tracks = Ok (features, sp') ->
     forall tid,
       numeric_of (features !! tid) =
         numeric_of (numeric_entry <$> latest tid (numeric_responses sp tracks)) /\
       (is_Some (latest tid (numeric_responses sp tracks)) ->
        is_Some (features !! tid)) /\
       (~ In tid (paired_ids sp tracks) ->
        features !! tid =
          numeric_entry <$> latest tid (numeric_responses sp tracks))).
Proof.
  split; [intros tid; apply numeric_pass_lookup |].
  unfold get_audio_features, paired_ids.
  fold (numeric_pass sp tracks).
  pose proof (numeric_pass_lookup sp tracks) as Hnumeric.
  destruct (numeric_pass sp tracks) as [features0 sp0].
  cbn [fst snd] in *. split.
  - intros Hall. now apply genre_chunks_total.
  - intros features sp' Hrun tid.
    apply genre_chunks_pairs in Hrun.
    destruct (merge_genres_keeps _ _ _ tid Hrun) as (Hnum & Hsome & Hother).
    rewrite <- Hnumeric. split; [exact Hnum |]. split; [|exact Hother].
    intros [af Haf]. apply Hsome. rewrite Hnumeric, Haf. cbn. eauto.
Qed.

End AggregatorClaims.

(** X14, witness: both tracks have feature data and only [t1] lists an
    artist; [t2] stays in the mapping with its numeric fields and no
    genres key. *)
Lemma missing_data_keeps_tracks_witness :
  exists features sp',
    get_audio_features plain_library plain_tracks = Ok (features, sp') /\
    features !! "t2"%string =
      Some (Descriptor (Some (PNum (Float 0.2))) (Some (PNum (Float 0.3)))
              (Some (PNum (Float 0.5))) (Some (PNum (Float 90))) None).
Proof.
  destruct (missing_data_keeps_tracks plain_library plain_tracks)
    as (_ & Hreturns & Hkeeps).
  destruct Hreturns as (features & sp' & Hrun).
  { repeat constructor; cbv; eauto. }
  exists features, sp'. split; [exact Hrun |].
  destruct (Hkeeps features sp' Hrun "t2"%string) as (_ & _ & Hother).
  rewrite Hother; [reflexivity |].
  vm_compute. intros [Heq|[]]. discriminate Heq.
Defined.

(** C1, where the code departs from the claim.  The genre pass pairs the
    artists it asked for with the first entries of the track list, not
    with the tracks they belong to.  With [t2] listing no artist, the
    genres of [t3]'s artist are stored under [t2] and [t3] gets none; with
    an entry that has no track object ahead of a track with an artist, the
    pass raises. *)
Theorem genres_follow_position_not_track :
  artist_ids_of mixed_tracks = ["a1"; "a3"]%string /\
  entry_of "t2" (get_audio_features mixed_library mixed_tracks) =
    Ok (Some (Descriptor (Some (PNum (Float 0.2))) (Some (PNum (Float 0.3)))
                (Some (PNum (Float 0.5))) (Some (PNum (Float 90)))
                (Some ["lo-fi"%string]))) /\
  entry_of "t3" (get_audio_features mixed_library mixed_tracks) = Ok None /\
  get_audio_features mixed_library [unavailable; song "t2" ["a1"]] =
    Raise TypeError.
Proof. repeat split; vm_compute; reflexivity. Qed.

(** C7, where the code departs from the claim.  Missing data can stop the
    aggregator and can give a track a genres key that is not its own.
    With an entry that has no track object ahead of [t2], the numeric pass
    stores the data of [t2] and the genre pass then raises: no mapping is
    returned and the data of [t2] is lost with it.  And [t2] listing no
    artist, so that no answer of the genre lookup is for it, its entry
    ends with a genres key all the same, the list of another track's
    artist. *)
Theorem missing_data_stops_the_aggregator :
  fst (numeric_pass mixed_library [unavailable; song "t2" ["a1"]])
    !! "t2"%string =
    Some (Descriptor (Some (PNum (Float 0.2))) (Some (PNum (Float 0.3)))
            (Some (PNum (Float 0.5))) (Some (PNum (Float 90))) None) /\
  get_audio_features mixed_library [unavailable; song "t2" ["a1"]] =
    Raise TypeError /\
  first_artist (song "t2" []) = None /\
  fst (numeric_pass mixed_library mixed_tracks) !! "t2"%string =
    Some (Descriptor (Some (PNum (Float 0.2))) (Some (PNum (Float 0.3)))
            (Some (PNum (Float 0.5))) (Some (PNum (Float 90))) None) /\
  entry_of "t2" (get_audio_features mixed_library mixed_tracks) =
    Ok (Some (Descriptor (Some (PNum (Float 0.2))) (Some (PNum (Float 0.3)))
                (Some (PNum (Float 0.5))) (Some (PNum (Float 90)))
                (Some ["lo-fi"%string]))).
Proof. repeat split; vm_compute; reflexivity. Qed.

(** A feature record that omits a value is stored with [None] under its
    key, and the classifier raises on the entry: the zero default of the
    classifier applies to absent keys only. *)
Example omitted_value_is_stored_as_None :
  entry_of "t1" (get_audio_features partial_library (saved partial_library)) =
    Ok (Some (Descriptor (Some PNone) (Some (PNum (Float 0.5)))
                (Some (PNum (Float 0.5))) (Some (PNum (Float 90))) None)) /\
  label_of (Descriptor (Some PNone) (Some (PNum (Float 0.5)))
              (Some (PNum (Float 0.5))) (Some (PNum (Float 90))) None)
    None None None = Raise TypeError.
Proof. split; vm_compute; reflexivity. Qed.

(** ** The playlist materializer *)

Section MaterializerClaims.

Context {Sp : Type} `{Spotify Sp}.

Lemma created_names_app (cs1 cs2 : list call) :
  created_names (cs1 ++ cs2) = created_names cs1 ++ created_names cs2.
Proof. apply omap_app. Qed.

Lemma create_loop_recorded (user_id : string) groups :
  forall (r : recorded Sp) (playlist_ids : gmap string string),
  exists playlist_ids' r',
    create_loop r user_id groups playlist_ids = (playlist_ids', r') /\
    created_names (calls r') =
      created_names (calls r) ++ map fst (nonempty_groups groups) /\
    forall vibe,
      is_Some (playlist_ids' !! vibe) <->
      is_Some (playlist_ids !! vibe) \/
      exists tracks, In (vibe, tracks) groups /\ tracks <> [].
Proof.
  induction groups as [|[vibe0 tracks0] groups IH]; intros r playlist_ids.
  - exists playlist_ids, r. cbn. rewrite app_nil_r.
    repeat split; auto. intros [Hs|(tracks & [] & _)]; exact Hs.
  - cbn [create_loop]. destruct tracks0 as [|t ts].
    + destruct (IH r playlist_ids) as (ids' & r' & Hrun & Hnames & Hkeys).
      exists ids', r'. split; [exact Hrun |]. split; [exact Hnames |].
      intros vibe. rewrite Hkeys. split.
      * intros [Hs|(tracks & Hin & Hne)]; [now left |].
        right. exists tracks. split; [now right | exact Hne].
      * intros [Hs|(tracks & [Heq|Hin] & Hne)]; [now left | | ].
        -- injection Heq as <- <-. congruence.
        -- right. eauto.
    + cbn [user_playlist_create playlist_add_items recorded_spotify].
      destruct (user_playlist_create (service r) user_id vibe0 false
                  ("VibePilot - " +:+ vibe0)%string) as [playlist s].
      cbn [service calls].
      match goal with
      | |- context [create_loop ?r1 user_id groups ?ids1] =>
          destruct (IH r1 ids1) as (ids' & r' & Hrun & Hnames & Hkeys)
      end.
      exists ids', r'. split; [exact Hrun |]. split.
      * rewrite Hnames. cbn [calls nonempty_groups List.filter snd map fst].
        rewrite !created_names_app. cbn. rewrite app_nil_r, <- app_assoc.
        reflexivity.
      * intros vibe. rewrite Hkeys. rewrite lookup_insert_is_Some. split.
        -- intros [[->|[_ Hs]]|(tracks & Hin & Hne)].
           ++ right. exists (t :: ts). split; [now left | discriminate].
           ++ now left.
           ++ right. exists tracks. split; [now right | exact Hne].
        -- intros [Hs|(tracks & [Heq|Hin] & Hne)].
           ++ destruct (decide (vibe0 = vibe)); [left; now left |].
              left. right. auto.
           ++ injection Heq as -> _. left. now left.
           ++ right. eauto.
Qed.

(** C9.  Empty groups are never materialized.  For every grouping, the
    materializer creates a playlist exactly for the labels that hold at
    least one track, in order, and the mapping it returns has a key
    exactly for those labels; a label whose track list is empty is not a
    key of the mapping. *)
Theorem empty_groups_are_skipped (sp : Sp) (user_id : string)
    (vibe_tracks : list (string * list string)) :
  exists playlist_ids r',
    create_playlists (Recorded sp []) user_id vibe_tracks =
      (playlist_ids, r') /\
    created_names (calls r') = map fst (nonempty_groups vibe_tracks) /\
    (forall vibe,
       is_Some (playlist_ids !! vibe) <->
       exists tracks, In (vibe, tracks) vibe_tracks /\ tracks <> []) /\
    (NoDup (map fst vibe_tracks) ->
     forall vibe, In (vibe, []) vibe_tracks -> playlist_ids !! vibe = None).
Proof.
  destruct (create_loop_recorded user_id vibe_tracks (Recorded sp []) ∅)
    as (ids & r' & Hrun & Hnames & Hkeys).
  exists ids, r'. split; [exact Hrun |]. split; [exact Hnames |].
  assert (Hiff : forall vibe,
             is_Some (ids !! vibe) <->
             exists tracks, In (vibe, tracks) vibe_tracks /\ tracks <> []).
  { intros vibe. rewrite Hkeys, lookup_empty. split.
    - intros [[x Hx]|Hex]; [discriminate Hx | exact Hex].
    - intros Hex. now right. }
  split; [exact Hiff |].
  intros Hnodup vibe Hempty.
  destruct (ids !! vibe) as [pid|] eqn:Hlookup; [|reflexivity].
  assert (Hsome : is_Some (ids !! vibe)) by (rewrite Hlookup; eauto).
  apply Hiff in Hsome as (tracks & Hin & Hne).
  exfalso. apply Hne.
  clear -Hnodup Hempty Hin.
  induction vibe_tracks as [|[v ts] rest IH]; [destruct Hin |].
  cbn [map fst] in Hnodup. apply NoDup_cons in Hnodup as [Hfresh Hnodup].
  assert (Hkey : forall x, In (vibe, x) rest -> In vibe (map fst rest)).
  { intros x Hx. apply in_map_iff. exists (vibe, x). auto. }
  destruct Hin as [Heq|Hin], Hempty as [Heq'|Hempty].
  - congruence.
  - injection Heq as -> ->. exfalso. apply Hfresh.
    apply list_elem_of_In. eauto.
  - injection Heq' as -> ->. exfalso. apply Hfresh.
    apply list_elem_of_In. eauto.
  - auto.
Qed.

End MaterializerClaims.

(** C9, witness: of three groups the empty one gets no playlist. *)
Lemma empty_groups_are_skipped_witness :
  exists playlist_ids r',
    create_playlists (Recorded three_songs []) "user" sample_grouping =
      (playlist_ids, r') /\
    created_names (calls r') = ["Hype Gym"; "Sad Bops"]%string /\
    playlist_ids !! "Lo-Fi Focus"%string = None.
Proof.
  destruct (empty_groups_are_skipped three_songs "user" sample_grouping)
    as (ids & r' & Hrun & Hnames & _ & Hempty).
  exists ids, r'. split; [exact Hrun |]. split; [exact Hnames |].
  apply Hempty.
  - cbn. repeat (apply NoDup_cons; split; [vm_compute; intros Hin;
      repeat (apply elem_of_cons in Hin as [Hin|Hin]; [discriminate Hin |]);
      now apply elem_of_nil in Hin |]). apply NoDup_nil_2.
  - cbn. auto.
Defined.

(** ** Further facts *)

(** X1, witness: the general fact applied to the empty descriptor set. *)
Lemma classify_vibe_label_in_VIBES_witness : In "Sad Bops"%string VIBES.
Proof.
  apply (classify_vibe_label_in_VIBES no_features None None None).
  reflexivity.
Defined.

(** ** The classifier: further behaviour *)

(** The label does not depend on the state of the [openai] module. *)
Lemma classify_vibe_label_any_module features prompt key openai openai' :
  fst (classify_vibe features prompt key openai) =
  fst (classify_vibe features prompt key openai').
Proof.
  unfold classify_vibe.
  match goal with
  | |- context [match ?r with Ok _ => _ | Raise _ => _ end] => generalize r
  end.
  now intros [[l|]|x].
Qed.

(** X2.  Without valence and energy the zero defaults decide: rule 3 matches
    before the genres are looked at, whatever the other keys hold. *)
Theorem no_valence_no_energy_is_sad_bops fd ft fg prompt key openai :
  classify_vibe (Descriptor None None fd ft fg) prompt key openai =
  (Ok "Sad Bops"%string, openai).
Proof. reflexivity. Qed.

(** [None] stored under [valence] makes the first comparison raise,
    whatever the other keys hold; the module state is left as it was. *)
Theorem none_valence_raises fe fd ft fg prompt key openai :
  classify_vibe (Descriptor (Some PNone) fe fd ft fg) prompt key openai =
  (Raise TypeError, openai).
Proof. reflexivity. Qed.

(** X3.  The hook is reached on the fallback path only: when a call leaves the
    module state changed, none of the six rules matched (a key holding
    [None] that no comparison reached read as 0) and the label is the
    default, prompt and credential were non-empty, the module was loaded,
    and the change is the credential stored in [api_key]. *)
Theorem hook_reached_only_on_fallback features prompt key openai :
  snd (classify_vibe features prompt key openai) <> openai ->
  (rule1 (num_or_zero (valence features)) (num_or_zero (energy features))
     = false /\
   rule2 (num_or_zero (valence features))
     (num_or_zero (danceability features)) (num_or_zero (energy features))
     = false /\
   rule3 (num_or_zero (valence features)) (num_or_zero (energy features))
     = false /\
   rule4 (num_or_zero (tempo features)) (num_or_zero (energy features))
     = false /\
   rule5 (genres_or_empty features) = false /\
   rule6 (num_or_zero (valence features)) (num_or_zero (energy features))
     = false) /\
  label_of features prompt key openai = Ok "Chill Vibes"%string /\
  truthy prompt = true /\ truthy key = true /\ is_Some openai /\
  snd (classify_vibe features prompt key openai) = Some (OpenAI key).
Proof.
  destruct features as [fv fe fd ft fg].
  unfold label_of, classify_vibe, genres_or_empty,
    rule1, rule2, rule3, rule4, rule5, rule6.
  cbn [valence energy danceability tempo genres].
  rewrite existsb_map_lower.
  assert (Hget : forall f,
            get f (PNum (Int 0)) = PNone \/
            get f (PNum (Int 0)) = PNum (num_or_zero f)).
  { intros [[|x]|]; simpl; auto. }
  destruct (Hget fv) as [-> | ->], (Hget fe) as [-> | ->],
    (Hget fd) as [-> | ->], (Hget ft) as [-> | ->];
    generalize (num_or_zero fv) (num_or_zero fe) (num_or_zero fd)
      (num_or_zero ft);
    intros v e d t;
    unfold gt, ge, lt, le, cmp, and_, mbind, py_bind;
    split_ifs; cbn [fst snd andb]; intros Hchanged;
    try (exfalso; apply Hchanged; reflexivity);
    (destruct (truthy prompt); [|cbn in Hchanged; congruence]);
    (destruct (truthy key); [|cbn in Hchanged; congruence]);
    (destruct openai as [m|]; [|cbn in Hchanged; congruence]);
    cbn; repeat split; eauto.
Qed.

(** X3, witness: a set no rule matches, with prompt, credential and module. *)
Lemma hook_reached_only_on_fallback_witness :
  rule2 (Float 0.4) (Int 0) (Float 0.7) = false /\
  label_of fallthrough_features (Some "p"%string) (Some "k"%string)
    (Some (OpenAI None)) = Ok "Chill Vibes"%string /\
  snd (classify_vibe fallthrough_features (Some "p"%string) (Some "k"%string)
         (Some (OpenAI None))) = Some (OpenAI (Some "k"%string)).
Proof.
  assert (Hchanged :
            snd (classify_vibe fallthrough_features (Some "p"%string)
                   (Some "k"%string) (Some (OpenAI None)))
            <> Some (OpenAI None)) by (vm_compute; discriminate).
  destruct (hook_reached_only_on_fallback _ _ _ _ Hchanged)
    as ((_ & Hrule2 & _) & Hlabel & _ & _ & _ & Hstate).
  split; [exact Hrule2 |]. split; [exact Hlabel | exact Hstate].
Defined.

(** On the path of rule 2, which gives the same label, the module state is
    left as it was. *)
Example rule2_leaves_the_module :
  classify_vibe
    (Descriptor (Some (PNum (Float 0.65))) (Some (PNum (Float 0.5)))
       (Some (PNum (Float 0.7))) None None)
    (Some "p"%string) (Some "k"%string) (Some (OpenAI None)) =
  (Ok "Chill Vibes"%string, Some (OpenAI None)).
Proof. vm_compute; reflexivity. Qed.

(** ** From the aggregator to the classifier *)

Section AggregatorToClassifier.

Context {Sp : Type} `{Spotify Sp}.

Lemma latest_In (tid : string) (feats : list (option audio_feature)) :
  forall af, latest tid feats = Some af ->
             In (Some af) feats /\ af_id af = tid.
Proof.
  induction feats as [|r feats IH]; intros af Hl; cbn [latest] in Hl;
    [discriminate Hl |].
  destruct (latest tid feats) as [af'|].
  - injection Hl as <-. destruct (IH af' eq_refl). split; [now right | assumption].
  - destruct r as [af'|]; [|discriminate Hl].
    destruct (decide (af_id af' = tid)); [|discriminate Hl].
    injection Hl as <-. split; [now left | assumption].
Qed.

(** What the result holds under the numeric keys of a track is what the
    numeric pass stored for it. *)
Lemma get_audio_features_numeric (sp sp' : Sp) tracks features tid :
  get_audio_features sp tracks = Ok (features, sp') ->
  numeric_of (features !! tid) =
  numeric_of (numeric_entry <$> latest tid (numeric_responses sp tracks)).
Proof.
  unfold get_audio_features. fold (numeric_pass sp tracks).
  pose proof (numeric_pass_lookup sp tracks tid) as Hnumeric.
  destruct (numeric_pass sp tracks) as [features0 sp0]. cbn [fst] in Hnumeric.
  intros Hrun. apply genre_chunks_pairs in Hrun.
  destruct (merge_genres_keeps _ _ _ tid Hrun) as (Hnum & _ & _).
  now rewrite Hnum, Hnumeric.
Qed.

Lemma numeric_fields_numeric_part (e e' : descriptor) :
  numeric_part e = numeric_part e' -> numeric_fields e -> numeric_fields e'.
Proof.
  destruct e, e'. unfold numeric_part, numeric_fields. cbn.
  intros Heq. injection Heq as -> -> -> ->. auto.
Qed.

Lemma complete_numeric_entry (af : audio_feature) :
  complete af -> numeric_fields (numeric_entry af).
Proof.
  destruct af as [i [[|v]|] [[|e]|] [[|d]|] [[|t]|]];
    unfold complete, numeric_fields; cbn; tauto.
Qed.

Lemma complete_records_numeric_fields (sp sp' : Sp) tracks features tid :
  all_complete (numeric_responses sp tracks) ->
  get_audio_features sp tracks = Ok (features, sp') ->
  numeric_fields (features_get features tid).
Proof.
  intros Hall Hrun.
  pose proof (get_audio_features_numeric _ _ _ _ tid Hrun) as Heq.
  unfold features_get.
  destruct (latest tid (numeric_responses sp tracks)) as [af|] eqn:Hl.
  - apply latest_In in Hl as [Hin _].
    unfold all_complete in Hall. rewrite List.Forall_forall in Hall.
    specialize (Hall _ Hin). cbn in Hall, Heq.
    destruct (features !! tid) as [e|]; cbn in Heq |- *.
    + apply (numeric_fields_numeric_part (numeric_entry af));
        [now symmetry | now apply complete_numeric_entry].
    + cbv; tauto.
  - cbn in Heq. destruct (features !! tid) as [e|]; cbn in Heq |- *.
    + destruct e. unfold numeric_part in Heq. cbn in Heq.
      injection Heq as -> -> -> ->. cbv; tauto.
    + cbv; tauto.
Qed.

(** X4.  When every feature record the service returned holds its four
    numbers, every entry of the aggregator's result, read the way [main]
    reads it, gets a label from the classifier, one of [VIBES]. *)
Theorem complete_records_classify (sp sp' : Sp) tracks features :
  all_complete (numeric_responses sp tracks) ->
  get_audio_features sp tracks = Ok (features, sp') ->
  forall tid prompt key openai,
    numeric_fields (features_get features tid) /\
    exists l,
      label_of (features_get features tid) prompt key openai = Ok l /\
      In l VIBES.
Proof.
  intros Hall Hrun tid prompt key openai.
  pose proof (complete_records_numeric_fields _ _ _ _ tid Hall Hrun) as Hnum.
  split; [exact Hnum |].
  eexists. split; [now apply classify_vibe_rules |].
  apply classify_by_rules_in_VIBES.
Qed.

(** X5.  When the last feature record for a track has no number under
    [valence] (the key missing, or null), the entry the aggregator builds
    holds [None] there and the classifier raises on it. *)
Theorem omitted_valence_raises_downstream (sp sp' : Sp) tracks features tid af :
  get_audio_features sp tracks = Ok (features, sp') ->
  latest tid (numeric_responses sp tracks) = Some af ->
  af_valence af = None \/ af_valence af = Some PNone ->
  forall prompt key openai,
    classify_vibe (features_get features tid) prompt key openai =
    (Raise TypeError, openai).
Proof.
  intros Hrun Hl Hval prompt key openai.
  pose proof (get_audio_features_numeric _ _ _ _ tid Hrun) as Heq.
  rewrite Hl in Heq.
  change (numeric_entry <$> Some af) with (Some (numeric_entry af)) in Heq.
  assert (Hv : valence (numeric_entry af) = Some PNone)
    by (unfold numeric_entry; cbn [valence];
        destruct Hval as [-> | ->]; reflexivity).
  unfold features_get.
  destruct (features !! tid) as [e|]; cbn [numeric_of default] in Heq |- *.
  - pose proof (f_equal (fun p => fst (fst (fst p))) Heq) as Hfv.
    unfold numeric_part in Hfv. cbn [fst] in Hfv. rewrite Hv in Hfv.
    destruct e as [fv fe fd ft fg]. cbn [valence] in Hfv. subst fv.
    reflexivity.
  - unfold numeric_part, numeric_entry in Heq. discriminate Heq.
Qed.

End AggregatorToClassifier.

(** X4, witness: both records of the library are complete. *)
Lemma complete_records_classify_witness :
  exists l,
    label_of (features_get
                (match get_audio_features plain_library plain_tracks with
                 | Ok (features, _) => features
                 | Raise _ => ∅
                 end) "t1") None None None = Ok l /\
    In l VIBES.
Proof.
  destruct (get_audio_features plain_library plain_tracks)
    as [[features sp']|e] eqn:Hrun; [|vm_compute in Hrun; discriminate Hrun].
  assert (Hall : all_complete (numeric_responses plain_library plain_tracks))
    by (vm_compute; repeat constructor).
  destruct (complete_records_classify plain_library sp' plain_tracks features
              Hall Hrun "t1"%string None None None) as [_ Hlabel].
  exact Hlabel.
Defined.

(** X5, witness: the record of the library omits [valence]. *)
Lemma omitted_valence_raises_downstream_witness :
  classify_vibe
    (features_get
       (match get_audio_features partial_library (saved partial_library) with
        | Ok (features, _) => features
        | Raise _ => ∅
        end) "t1") None None None = (Raise TypeError, None).
Proof.
  destruct (get_audio_features partial_library (saved partial_library))
    as [[features sp']|e] eqn:Hrun; [|vm_compute in Hrun; discriminate Hrun].
  eapply (omitted_valence_raises_downstream partial_library sp'
            (saved partial_library) features "t1"%string);
    [exact Hrun | vm_compute; reflexivity | left; reflexivity].
Defined.

(** ** The fetcher against a service that pages through a fixed library *)

Lemma firstn_add_skipn {A : Type} (a b : nat) (l : list A) :
  firstn (a + b) l = firstn a l ++ firstn b (skipn a l).
Proof.
  revert l; induction a as [|a IH]; intros l; [reflexivity |].
  destruct l as [|x l]; cbn [Nat.add firstn skipn app].
  - now destruct b.
  - now rewrite IH.
Qed.

Lemma firstn_length_firstn {A : Type} (m : nat) (l : list A) :
  firstn (length (firstn m l)) l = firstn m l.
Proof.
  revert l; induction m as [|m IH]; intros l; [reflexivity |].
  destruct l as [|x l]; [reflexivity |].
  cbn [firstn length]. now rewrite IH.
Qed.

Lemma firstn_nil_inv {A : Type} (m : nat) (l : list A) :
  (0 < m)%nat -> firstn m l = [] -> l = [].
Proof.
  intros Hm Hl. destruct m; [lia |]. now destruct l.
Qed.

Section PagedLibrary.

Context {Sp : Type} `{Spotify Sp}.

(** The library the service pages through, and the service states in
    which it does. *)
Variable library_list : list saved_item.
Variable serves : Sp -> Prop.

Hypothesis serves_pages :
  forall (s : Sp) (limit offset : Z),
    serves s ->
    serves (snd (current_user_saved_tracks s limit offset)) /\
    (0 <= offset -> 0 < limit ->
     get (items (fst (current_user_saved_tracks s limit offset))) [] =
     slice (Z.to_nat offset) (Z.to_nat (offset + limit)) library_list).

Lemma fetch_loop_paged (fuel : nat) :
  forall (sp : Sp) (limit : Z) (tracks : list saved_item) (offset : Z),
    serves sp ->
    (Z.to_nat (limit - count tracks) < fuel)%nat ->
    offset = count tracks ->
    offset <= Z.max 0 limit ->
    tracks = firstn (Z.to_nat offset) library_list ->
    exists sp',
      fetch_loop fuel sp limit tracks offset =
        Some (firstn (Z.to_nat limit) library_list, sp') /\
      serves sp'.
Proof.
  induction fuel as [|fuel IH];
    intros sp limit tracks offset Hserves Hfuel Hoff Hle Htracks; [lia |].
  cbn [fetch_loop]. fold (count tracks).
  assert (Hnn : 0 <= offset) by (subst offset; apply count_nonneg).
  destruct (count tracks <? limit) eqn:Hlt.
  - apply Z.ltb_lt in Hlt.
    destruct (serves_pages sp (Z.min 50 (limit - count tracks)) offset Hserves)
      as [Hserves' Hpage].
    destruct (current_user_saved_tracks sp
                (Z.min 50 (limit - count tracks)) offset) as [batch s].
    cbn [fst snd] in Hserves', Hpage.
    rewrite Hpage by lia. clear Hpage.
    unfold slice.
    remember (Z.min 50 (limit - count tracks)) as m eqn:Hm.
    assert (Hm1 : 1 <= m <= limit - count tracks) by lia. clear Hm.
    replace (Z.to_nat (offset + m) - Z.to_nat offset)%nat with (Z.to_nat m)
      by lia.
    destruct (firstn (Z.to_nat m) (skipn (Z.to_nat offset) library_list))
      as [|x xs] eqn:Hitems.
    + exists s. split; [|exact Hserves'].
      apply firstn_nil_inv in Hitems; [|lia].
      assert (Hlen : (length library_list <= Z.to_nat offset)%nat).
      { destruct (Nat.le_gt_cases (length library_list) (Z.to_nat offset))
          as [Hl|Hl]; [exact Hl |].
        apply (f_equal (@length _)) in Hitems.
        rewrite length_skipn in Hitems. cbn in Hitems. lia. }
      rewrite Htracks, !firstn_all2 by lia. reflexivity.
    + rewrite <- Hitems.
      remember (firstn (Z.to_nat m) (skipn (Z.to_nat offset) library_list))
        as page eqn:Hpage.
      assert (Hcount : count page <= m).
      { unfold count. rewrite Hpage, length_firstn. lia. }
      assert (Hpos : 0 < count page)
        by (rewrite Hitems; unfold count; cbn; lia).
      apply IH.
      * exact Hserves'.
      * rewrite count_app. lia.
      * fold (count page). rewrite count_app. lia.
      * fold (count page). lia.
      * fold (count page).
        replace (Z.to_nat (offset + count page))
          with (Z.to_nat offset + length page)%nat by (unfold count; lia).
        rewrite firstn_add_skipn, <- Htracks. f_equal.
        rewrite Hpage. now rewrite firstn_length_firstn.
  - apply Z.ltb_ge in Hlt. exists sp. split; [|exact Hserves].
    replace (Z.to_nat limit) with (Z.to_nat offset) by lia.
    now rewrite <- Htracks.
Qed.

(** X6.  Against a service that answers every page request with the slice of a
    fixed library it was asked for, the fetcher returns the first [limit]
    entries of the library, in order: the whole library when it is shorter
    than the cap, nothing when the cap is zero or negative. *)
Theorem fetch_returns_library_prefix (sp : Sp) (limit : Z) (fuel : nat) :
  serves sp ->
  (Z.to_nat limit < fuel)%nat ->
  exists sp',
    fetch_liked_songs fuel sp limit =
      Some (firstn (Z.to_nat limit) library_list, sp') /\
    serves sp'.
Proof.
  intros Hserves Hfuel. unfold fetch_liked_songs.
  apply fetch_loop_paged; try assumption.
  - change (count []) with 0. now rewrite Z.sub_0_r.
  - reflexivity.
  - lia.
  - reflexivity.
Qed.

End PagedLibrary.

(** X6, witness: a cap of 120 on the library of 200 tracks. *)
Lemma fetch_returns_library_prefix_witness :
  exists sp',
    fetch_liked_songs 121 two_hundred_songs 120 =
      Some (firstn 120 (saved two_hundred_songs), sp') /\
    saved sp' = saved two_hundred_songs.
Proof.
  apply (fetch_returns_library_prefix (saved two_hundred_songs)
           (fun s => saved s = saved two_hundred_songs)).
  - intros s limit offset Hs. split; [exact Hs |].
    intros _ _. cbn. now rewrite Hs.
  - reflexivity.
  - simpl. lia.
Defined.

(** ** Sub-batches *)

Lemma slice_step {A : Type} (c k : nat) (l : list A) :
  slice c (c + k) l = firstn k (skipn c l).
Proof. unfold slice. f_equal. lia. Qed.

Lemma range_from_cover {A : Type} (k : nat) (l : list A) (fuel : nat) :
  forall start,
    (0 < k)%nat ->
    (length l - start <= fuel)%nat ->
    concat (map (fun c => slice c (c + k) l)
              (range_from fuel start (length l) k)) = skipn start l /\
    Forall (fun c => (c < length l)%nat) (range_from fuel start (length l) k).
Proof.
  induction fuel as [|fuel IH]; intros start Hk Hfuel; cbn [range_from].
  - split; [|constructor]. cbn. symmetry. apply skipn_all2. lia.
  - destruct (start <? length l)%nat eqn:Hlt.
    + apply Nat.ltb_lt in Hlt.
      destruct (IH (start + k)%nat Hk) as [Hcat Hall]; [lia |].
      split; [|constructor; assumption].
      cbn [map concat]. rewrite Hcat, slice_step.
      rewrite <- (firstn_skipn k (skipn start l)) at 2.
      f_equal. rewrite skipn_skipn. f_equal. lia.
    + apply Nat.ltb_ge in Hlt. split; [|constructor].
      cbn. symmetry. apply skipn_all2. lia.
Qed.

(** The sub-batches of a list, put end to end, are the list; none is
    empty and none is longer than the batch size. *)
Lemma batches_cover {A : Type} (k : nat) (l : list A) :
  (0 < k)%nat ->
  concat (batches k l) = l /\
  Forall (fun b => (0 < length b <= k)%nat) (batches k l).
Proof.
  intros Hk. unfold batches, range.
  destruct (range_from_cover k l (length l) 0%nat Hk) as [Hcat Hall]; [lia |].
  split; [exact Hcat |].
  apply Forall_map. eapply Forall_impl; [exact Hall |].
  intros c Hc. cbn beta in *.
  rewrite slice_step, length_firstn, length_skipn. lia.
Qed.

Section BatchedCalls.

Context {Sp : Type} `{Spotify Sp}.

Lemma features_chunks_calls chunks :
  forall (r : recorded Sp) track_ids features,
    calls (snd (features_chunks chunks r track_ids features)) =
    calls r ++
    map (fun c => AudioFeatures (slice c (c + 100) track_ids)) chunks.
Proof.
  induction chunks as [|chunk chunks IH]; intros r track_ids features;
    cbn [features_chunks map]; [now rewrite app_nil_r |].
  cbn [audio_features recorded_spotify].
  destruct (audio_features (service r) (slice chunk (chunk + 100) track_ids))
    as [feats s].
  rewrite IH. cbn [calls]. now rewrite <- app_assoc.
Qed.

Lemma genre_chunks_calls chunks :
  forall (r r' : recorded Sp) tracks artist_ids features features',
    genre_chunks chunks r tracks artist_ids features = Ok (features', r') ->
    calls r' =
    calls r ++ map (fun c => Artists (slice c (c + 50) artist_ids)) chunks.
Proof.
  induction chunks as [|chunk chunks IH];
    intros r r' tracks artist_ids features features' Hrun;
    cbn [genre_chunks map] in *.
  - injection Hrun as <- <-. now rewrite app_nil_r.
  - cbn [artists recorded_spotify] in Hrun.
    destruct (artists (service r) (slice chunk (chunk + 50) artist_ids))
      as [arts s].
    destruct (merge_genres features _) as [features1|e]; [|discriminate Hrun].
    cbn [mbind py_bind] in Hrun. apply IH in Hrun.
    rewrite Hrun. cbn [calls]. now rewrite <- app_assoc.
Qed.

Lemma feature_requests_app (cs1 cs2 : list call) :
  feature_requests (cs1 ++ cs2) = feature_requests cs1 ++ feature_requests cs2.
Proof. apply omap_app. Qed.

Lemma artist_requests_app (cs1 cs2 : list call) :
  artist_requests (cs1 ++ cs2) = artist_requests cs1 ++ artist_requests cs2.
Proof. apply omap_app. Qed.

Lemma feature_requests_features (bs : list (list string)) :
  feature_requests (map AudioFeatures bs) = bs /\
  artist_requests (map AudioFeatures bs) = [].
Proof.
  induction bs as [|b bs [IH1 IH2]]; [split; reflexivity |].
  cbn [map]. split.
  - change (feature_requests (AudioFeatures b :: map AudioFeatures bs))
      with (b :: feature_requests (map AudioFeatures bs)).
    now rewrite IH1.
  - exact IH2.
Qed.

Lemma artist_requests_artists (bs : list (list string)) :
  artist_requests (map Artists bs) = bs /\
  feature_requests (map Artists bs) = [].
Proof.
  induction bs as [|b bs [IH1 IH2]]; [split; reflexivity |].
  cbn [map]. split.
  - change (artist_requests (Artists b :: map Artists bs))
      with (b :: artist_requests (map Artists bs)).
    now rewrite IH1.
  - exact IH2.
Qed.

(** The calls of a run of the aggregator that returns: the feature
    requests for the sub-batches of the track identifiers, then the artist
    requests for the sub-batches of the artist identifiers. *)
Lemma get_audio_features_calls (r r' : recorded Sp) tracks features :
  get_audio_features r tracks = Ok (features, r') ->
  calls r' =
  calls r ++ map AudioFeatures (batches 100 (track_ids_of tracks)) ++
  map Artists (batches 50 (artist_ids_of tracks)).
Proof.
  unfold get_audio_features. intros Hrun.
  pose proof (features_chunks_calls
                (range 0 (length (track_ids_of tracks)) 100) r
                (track_ids_of tracks) ∅) as Hfeat.
  destruct (features_chunks _ r (track_ids_of tracks) ∅) as [features0 r0].
  cbn [snd] in Hfeat. apply genre_chunks_calls in Hrun.
  rewrite Hrun, Hfeat, <- app_assoc. unfold batches.
  now rewrite !map_map.
Qed.

(** X7.  Bounded sub-batches.  When every entry has a track object, the
    aggregator returns, and the calls it made are these and no others:
    feature requests of at most 100 identifiers each which, end to end,
    are the track identifiers in order, followed by artist requests of at
    most 50 identifiers each which, end to end, are the first-artist
    identifiers in order.  No request is empty. *)
Theorem requests_are_bounded_batches (sp : Sp) (tracks : list saved_item) :
  Forall has_track tracks ->
  exists features r',
    get_audio_features (Recorded sp []) tracks = Ok (features, r') /\
    calls r' =
      map AudioFeatures (feature_requests (calls r')) ++
      map Artists (artist_requests (calls r')) /\
    concat (feature_requests (calls r')) = track_ids_of tracks /\
    Forall (batch_of 100) (feature_requests (calls r')) /\
    concat (artist_requests (calls r')) = artist_ids_of tracks /\
    Forall (batch_of 50) (artist_requests (calls r')).
Proof.
  intros Hall.
  assert (Hret : exists features r',
             get_audio_features (Recorded sp []) tracks = Ok (features, r')).
  { unfold get_audio_features.
    destruct (features_chunks _ (Recorded sp []) (track_ids_of tracks) ∅)
      as [features0 r0].
    now apply genre_chunks_total. }
  destruct Hret as (features & r' & Hrun).
  exists features, r'. split; [exact Hrun |].
  apply get_audio_features_calls in Hrun. cbn [calls app] in Hrun.
  destruct (feature_requests_features (batches 100 (track_ids_of tracks)))
    as [Hff Haf].
  destruct (artist_requests_artists (batches 50 (artist_ids_of tracks)))
    as [Haa Hfa].
  assert (Hf : feature_requests (calls r') = batches 100 (track_ids_of tracks))
    by (rewrite Hrun, feature_requests_app, Hff, Hfa; apply app_nil_r).
  assert (Ha : artist_requests (calls r') = batches 50 (artist_ids_of tracks))
    by (rewrite Hrun, artist_requests_app, Haf, Haa; reflexivity).
  rewrite Hf, Ha.
  destruct (batches_cover 100 (track_ids_of tracks)) as [Hc1 Hb1]; [lia |].
  destruct (batches_cover 50 (artist_ids_of tracks)) as [Hc2 Hb2]; [lia |].
  repeat split; assumption.
Qed.

End BatchedCalls.

(** X7, witness: the three tracks of the mixed library, all with a track
    object; one feature request, one artist request. *)
Lemma requests_are_bounded_batches_witness :
  exists features r',
    get_audio_features (Recorded mixed_library []) mixed_tracks =
      Ok (features, r') /\
    calls r' = [AudioFeatures ["t1"; "t2"; "t3"]; Artists ["a1"; "a3"]]%string.
Proof.
  assert (Hall : Forall has_track mixed_tracks)
    by (repeat constructor; cbv; eauto).
  destruct (requests_are_bounded_batches mixed_library mixed_tracks Hall)
    as (features & r' & Hrun & _).
  exists features, r'. split; [exact Hrun |].
  apply get_audio_features_calls in Hrun. rewrite Hrun. reflexivity.
Defined.

(** ** The genre pass on a well-formed track list *)

Lemma combine_map_r {A B : Type} (g : A -> B) (l : list A) :
  combine l (map g l) = map (fun x => (x, g x)) l.
Proof. induction l as [|x l IH]; cbn; [reflexivity | now rewrite IH]. Qed.

Lemma slice_map {A B : Type} (g : A -> B) (a b : nat) (l : list A) :
  slice a b (map g l) = map g (slice a b l).
Proof. unfold slice. now rewrite skipn_map, firstn_map. Qed.

Lemma slice_length_slice {A : Type} (c k : nat) (l : list A) :
  slice c (c + length (slice c (c + k) l)) l = slice c (c + k) l.
Proof. rewrite !slice_step. apply firstn_length_firstn. Qed.

Lemma artist_ids_of_first_artist (tracks : list saved_item) :
  artist_ids_of tracks = omap first_artist tracks.
Proof. reflexivity. Qed.

Lemma omap_all_Some {A B : Type} (f : A -> option B) (d : B) (l : list A) :
  Forall (fun x => is_Some (f x)) l ->
  omap f l = map (fun x => default d (f x)) l.
Proof.
  induction 1 as [|x l [y Hy] _ IH]; [reflexivity |].
  cbn. rewrite Hy. cbn. now rewrite IH.
Qed.

Lemma set_genres_lookup features tid g :
  genres_under (set_genres features tid g) tid = Some (Some g).
Proof.
  unfold genres_under, set_genres.
  destruct (features !! tid); now rewrite lookup_insert_eq.
Qed.

Lemma In_track_ids_of (tid : string) (ts : list saved_item) :
  In tid (track_ids_of ts) <->
  exists t, In t ts /\ item_track_id t = Ok tid.
Proof.
  induction ts as [|t ts IH]; [split; [intros [] | intros (t & [] & _)] |].
  rewrite track_ids_of_cons. unfold item_track_id in *.
  destruct (track t) as [tr|] eqn:Htr.
  - split.
    + intros [<-|Hin].
      * exists t. rewrite Htr. split; [now left | reflexivity].
      * apply IH in Hin as (t' & Hin & Hid). exists t'. split; [now right | exact Hid].
    + intros (t' & [<-|Hin] & Hid).
      * rewrite Htr in Hid. injection Hid as <-. now left.
      * right. apply IH. eauto.
  - rewrite IH. split.
    + intros (t' & Hin & Hid). exists t'. split; [now right | exact Hid].
    + intros (t' & [<-|Hin] & Hid); [rewrite Htr in Hid; discriminate Hid |].
      eauto.
Qed.

(** After the merge, a track under whose identifier some pair was stored
    holds the genres of the pairs stored under it, when these agree. *)
Lemma merge_genres_stores pairs :
  forall features features' tid G,
    merge_genres features pairs = Ok features' ->
    (exists t a, In (t, a) pairs /\ item_track_id t = Ok tid) ->
    (forall t a, In (t, a) pairs -> item_track_id t = Ok tid ->
                 genres_of a = G) ->
    genres_under features' tid = Some (Some G).
Proof.
  induction pairs as [|[t0 a0] pairs IH];
    intros features features' tid G Hrun Hex Hagree.
  - destruct Hex as (t & a & [] & _).
  - cbn [merge_genres] in Hrun.
    destruct (item_track_id t0) as [tid0|e] eqn:Hid0; [|discriminate Hrun].
    cbn [mbind py_bind] in Hrun.
    destruct (in_dec string_dec tid (track_ids_of (map fst pairs)))
      as [Hin|Hnot].
    + apply (IH _ _ tid G Hrun).
      * apply In_track_ids_of in Hin as (t & Hin & Hid).
        apply in_map_iff in Hin as ([t' a'] & <- & Hin). eauto.
      * intros t a Hin' Hid. apply (Hagree t a); [now right | exact Hid].
    + destruct (merge_genres_keeps _ _ _ tid Hrun) as (_ & _ & Hother).
      unfold genres_under. rewrite (Hother Hnot).
      destruct Hex as (t & a & [Heq|Hin'] & Hid).
      * injection Heq as <- <-. rewrite Hid in Hid0. injection Hid0 as <-.
        fold (genres_under (set_genres features tid (get (artist_genres a0) [])) tid).
        rewrite set_genres_lookup. do 2 f_equal.
        apply (Hagree t0 a0); [now left | exact Hid].
      * exfalso. apply Hnot. apply In_track_ids_of. exists t. split; [|exact Hid].
        apply in_map_iff. exists (t, a). split; [reflexivity | exact Hin'].
Qed.

Section AlignedGenres.

Context {Sp : Type} `{Spotify Sp}.

(** The artist object the service holds for an identifier, and the
    service states in which it answers with it. *)
Variable answer : string -> artist_obj.
Variable answers : Sp -> Prop.

Hypothesis answers_artists :
  forall (s : Sp) (ids : list string),
    answers s ->
    answers (snd (artists s ids)) /\ fst (artists s ids) = map answer ids.

Hypothesis answers_audio_features :
  forall (s : Sp) (ids : list string),
    answers s -> answers (snd (audio_features s ids)).

Lemma features_chunks_answers chunks :
  forall (sp : Sp) track_ids features,
    answers sp -> answers (snd (features_chunks chunks sp track_ids features)).
Proof.
  induction chunks as [|chunk chunks IH]; intros sp track_ids features Hs;
    cbn [features_chunks]; [exact Hs |].
  pose proof (answers_audio_features sp (slice chunk (chunk + 100) track_ids) Hs)
    as Hs'.
  destruct (audio_features sp (slice chunk (chunk + 100) track_ids))
    as [feats sp']. now apply IH.
Qed.

Lemma genre_pairs_aligned (f : saved_item -> string) tracks chunks :
  forall (sp : Sp),
    answers sp ->
    genre_pairs chunks sp tracks (map f tracks) =
    concat (map (fun c => map (fun t => (t, answer (f t)))
                            (slice c (c + 50) tracks)) chunks).
Proof.
  induction chunks as [|chunk chunks IH]; intros sp Hs;
    cbn [genre_pairs map concat]; [reflexivity |].
  destruct (answers_artists sp (slice chunk (chunk + 50) (map f tracks)) Hs)
    as [Hs' Harts].
  destruct (artists sp (slice chunk (chunk + 50) (map f tracks)))
    as [arts sp'].
  cbn [fst snd] in Hs', Harts. subst arts.
  rewrite (IH sp' Hs'). f_equal.
  rewrite slice_map, length_map, slice_length_slice, map_map.
  apply (combine_map_r (fun t => answer (f t))).
Qed.

(** X8.  On a list in which every entry has a track object that lists an
    artist, and against a service that answers each artist identifier with
    the artist it holds for it, the aggregator returns, and every track
    has the genres of its own first artist: the entry under its identifier
    holds [artist.get("genres", [])] of the answer for that artist,
    provided entries that share the identifier share the first artist. *)
Theorem genres_of_own_first_artist (sp : Sp) (tracks : list saved_item) :
  answers sp ->
  Forall (fun t => is_Some (first_artist t)) tracks ->
  exists features sp',
    get_audio_features sp tracks = Ok (features, sp') /\
    forall t tid aid,
      In t tracks ->
      item_track_id t = Ok tid ->
      first_artist t = Some aid ->
      (forall t', In t' tracks -> item_track_id t' = Ok tid ->
                  first_artist t' = Some aid) ->
      genres_under features tid = Some (Some (genres_of (answer aid))).
Proof.
  intros Hs Hall.
  assert (Htrack : Forall has_track tracks).
  { eapply Forall_impl; [exact Hall |]. intros t [aid Haid].
    unfold has_track, first_artist in *.
    destruct (track t); [eauto | discriminate Haid]. }
  unfold get_audio_features.
  pose proof (features_chunks_answers
                (range 0 (length (track_ids_of tracks)) 100) sp
                (track_ids_of tracks) ∅ Hs) as Hs0.
  destruct (features_chunks _ sp (track_ids_of tracks) ∅) as [features0 sp0].
  cbn [snd] in Hs0.
  destruct (genre_chunks_total
              (range 0 (length (artist_ids_of tracks)) 50) sp0 tracks
              (artist_ids_of tracks) features0 Htrack)
    as (features & sp' & Hrun).
  exists features, sp'. split; [exact Hrun |].
  apply genre_chunks_pairs in Hrun.
  set (f := fun t => default ""%string (first_artist t)).
  assert (Hids : artist_ids_of tracks = map f tracks)
    by (rewrite artist_ids_of_first_artist; now apply omap_all_Some).
  rewrite Hids in Hrun.
  rewrite (genre_pairs_aligned f tracks _ sp0 Hs0) in Hrun.
  rewrite length_map in Hrun.
  assert (Hpairs :
            concat (map (fun c => map (fun t => (t, answer (f t)))
                                    (slice c (c + 50) tracks))
                      (range 0 (length tracks) 50)) =
            map (fun t => (t, answer (f t))) tracks).
  { destruct (batches_cover 50 tracks) as [Hcat _]; [lia |].
    unfold batches in Hcat. rewrite <- Hcat at 2.
    now rewrite concat_map, map_map. }
  rewrite Hpairs in Hrun.
  intros t tid aid Hin Hid Haid Hshare.
  apply (merge_genres_stores _ _ _ tid _ Hrun).
  - exists t, (answer (f t)). split; [|exact Hid].
    apply in_map_iff. exists t. auto.
  - intros t' a' Hin' Hid'.
    apply in_map_iff in Hin' as (t'' & Heq & Hin''). injection Heq as -> <-.
    unfold f. now rewrite (Hshare t' Hin'' Hid').
Qed.

End AlignedGenres.

(** X8, witness: two tracks, each with its artist, against the table-backed
    service. *)
Lemma genres_of_own_first_artist_witness :
  exists features sp',
    get_audio_features mixed_library [song "t1" ["a1"]; song "t3" ["a3"]] =
      Ok (features, sp') /\
    genres_under features "t3" = Some (Some ["lo-fi"%string]).
Proof.
  destruct (genres_of_own_first_artist
              (fun i => Artist (snd <$> find (fun row => String.eqb (fst row) i)
                                          (artist_rows mixed_library)))
              (fun s => artist_rows s = artist_rows mixed_library)
              ltac:(intros s ids Hs; split; [exact Hs | cbn; now rewrite Hs])
              ltac:(intros s ids Hs; exact Hs)
              mixed_library [song "t1" ["a1"]; song "t3" ["a3"]])
    as (features & sp' & Hrun & Hgenres).
  - reflexivity.
  - repeat constructor; cbv; eauto.
  - exists features, sp'. split; [exact Hrun |].
    apply (Hgenres (song "t3" ["a3"]) "t3"%string "a3"%string).
    + right. now left.
    + reflexivity.
    + reflexivity.
    + intros t' [<-|[<-|[]]] Hid; [discriminate Hid | reflexivity].
Defined.

(** ** The materializer's calls and the identifiers it returns *)

Lemma nonempty_groups_In (g : string * list string) groups :
  In g (nonempty_groups groups) -> In g groups.
Proof. unfold nonempty_groups. intros Hin. now apply filter_In in Hin. Qed.

Section MaterializerCalls.

Context {Sp : Type} `{Spotify Sp}.

Lemma create_loop_calls (user_id : string) groups :
  forall (r : recorded Sp) (playlist_ids : gmap string string),
  exists playlist_ids' r' pids,
    create_loop r user_id groups playlist_ids = (playlist_ids', r') /\
    length pids = length (nonempty_groups groups) /\
    calls r' =
      calls r ++
      concat (map (materialize_calls user_id)
                (combine (nonempty_groups groups) pids)) /\
    (forall vibe, ~ In vibe (map fst groups) ->
                  playlist_ids' !! vibe = playlist_ids !! vibe) /\
    (NoDup (map fst groups) ->
     forall vibe tracks pid,
       In (vibe, tracks, pid) (combine (nonempty_groups groups) pids) ->
       playlist_ids' !! vibe = Some pid).
Proof.
  induction groups as [|[vibe0 tracks0] groups IH]; intros r playlist_ids.
  - exists playlist_ids, r, []. cbn. rewrite app_nil_r.
    repeat split; auto. intros _ vibe tracks pid [].
  - cbn [create_loop]. destruct tracks0 as [|t ts].
    + destruct (IH r playlist_ids)
        as (ids' & r' & pids & Hrun & Hlen & Hcalls & Hframe & Hvals).
      exists ids', r', pids. cbn [nonempty_groups List.filter snd].
      fold (nonempty_groups groups).
      repeat split; try assumption.
      * intros vibe Hnot. apply Hframe. intros Hin. apply Hnot. now right.
      * intros Hnodup. apply Hvals. cbn in Hnodup.
        now apply NoDup_cons in Hnodup.
    + cbn [user_playlist_create playlist_add_items recorded_spotify].
      destruct (user_playlist_create (service r) user_id vibe0 false
                  ("VibePilot - " +:+ vibe0)%string) as [playlist s].
      cbn [service calls].
      match goal with
      | |- context [create_loop ?r1 user_id groups ?ids1] =>
          destruct (IH r1 ids1)
            as (ids' & r' & pids & Hrun & Hlen & Hcalls & Hframe & Hvals)
      end.
      exists ids', r', (playlist_id playlist :: pids).
      cbn [nonempty_groups List.filter snd]. fold (nonempty_groups groups).
      split; [exact Hrun |]. split; [cbn; now rewrite Hlen |].
      split; [|split].
      * rewrite Hcalls. cbn [calls combine map concat materialize_calls].
        rewrite <- !app_assoc. reflexivity.
      * intros vibe Hnot. rewrite Hframe.
        -- apply lookup_insert_ne. intros ->. apply Hnot. now left.
        -- intros Hin. apply Hnot. now right.
      * intros Hnodup vibe tracks pid Hin. cbn [map fst] in Hnodup.
        apply NoDup_cons in Hnodup as [Hfresh Hnodup].
        cbn [combine] in Hin. destruct Hin as [Heq|Hin].
        -- injection Heq as <- <- <-. rewrite Hframe.
           ++ apply lookup_insert_eq.
           ++ intros Hin. apply Hfresh. now apply list_elem_of_In.
        -- now apply (Hvals Hnodup vibe tracks pid).
Qed.

(** X9.  For a grouping with one list per label, the materializer makes these
    calls and no others: for each label that holds tracks, in order, one
    request to create a playlist for the user, named after the label, not
    public, described as "VibePilot - " followed by the label, and then
    one request that adds the label's whole track list to the playlist
    identifier just returned.  The mapping it returns sends each such
    label to that identifier. *)
Theorem playlists_follow_groups (sp : Sp) (user_id : string)
    (vibe_tracks : list (string * list string)) :
  NoDup (map fst vibe_tracks) ->
  exists playlist_ids r' pids,
    create_playlists (Recorded sp []) user_id vibe_tracks =
      (playlist_ids, r') /\
    length pids = length (nonempty_groups vibe_tracks) /\
    calls r' =
      concat (map (materialize_calls user_id)
                (combine (nonempty_groups vibe_tracks) pids)) /\
    (forall vibe tracks pid,
       In (vibe, tracks, pid) (combine (nonempty_groups vibe_tracks) pids) ->
       playlist_ids !! vibe = Some pid).
Proof.
  intros Hnodup.
  destruct (create_loop_calls user_id vibe_tracks (Recorded sp []) ∅)
    as (ids & r' & pids & Hrun & Hlen & Hcalls & _ & Hvals).
  exists ids, r', pids.
  split; [exact Hrun |]. split; [exact Hlen |]. split; [exact Hcalls |].
  exact (Hvals Hnodup).
Qed.

End MaterializerCalls.

(** X9, witness: the sample grouping against the table-backed service; two of
    its three groups hold tracks. *)
Lemma playlists_follow_groups_witness :
  exists playlist_ids r' pids,
    create_playlists (Recorded three_songs []) "user" sample_grouping =
      (playlist_ids, r') /\
    length pids = 2%nat /\
    calls r' =
      concat (map (materialize_calls "user")
                (combine [("Hype Gym", ["t1"]); ("Sad Bops", ["t2"; "t3"])]
                   pids))%string /\
    (forall vibe tracks pid,
       In (vibe, tracks, pid)
         (combine [("Hype Gym", ["t1"]); ("Sad Bops", ["t2"; "t3"])] pids)%string ->
       playlist_ids !! vibe = Some pid).
Proof.
  apply (playlists_follow_groups three_songs "user" sample_grouping).
  cbn. repeat (apply NoDup_cons; split; [vm_compute; intros Hin;
    repeat (apply elem_of_cons in Hin as [Hin|Hin]; [discriminate Hin |]);
    now apply elem_of_nil in Hin |]). apply NoDup_nil_2.
Defined.

(** ** The driver: grouping and logging *)

Lemma append_to_group_keys (vibe tid : string) groups :
  (In vibe (map fst groups) ->
   map fst (append_to_group vibe tid groups) = map fst groups) /\
  (~ In vibe (map fst groups) ->
   map fst (append_to_group vibe tid groups) = map fst groups ++ [vibe]).
Proof.
  induction groups as [|[v tids] groups [IHin IHnot]]; cbn [append_to_group].
  - split; [intros [] | reflexivity].
  - destruct (decide (v = vibe)) as [->|Hne]; cbn [map fst].
    + split; [reflexivity |]. intros Hnot. exfalso. apply Hnot. now left.
    + split.
      * intros [Heq|Hin]; [congruence |]. now rewrite IHin.
      * intros Hnot. rewrite IHnot; [reflexivity |].
        intros Hin. apply Hnot. now right.
Qed.

Lemma append_to_group_In (vibe tid : string) groups :
  NoDup (map fst groups) ->
  forall v' tids',
    In (v', tids') (append_to_group vibe tid groups) ->
    (v' <> vibe /\ In (v', tids') groups) \/
    (v' = vibe /\
     ((exists tids, In (vibe, tids) groups /\ tids' = tids ++ [tid]) \/
      (~ In vibe (map fst groups) /\ tids' = [tid]))).
Proof.
  induction groups as [|[v tids] groups IH]; intros Hnodup v' tids' Hin;
    cbn [append_to_group] in Hin.
  - destruct Hin as [Heq|[]]. injection Heq as <- <-.
    right. split; [reflexivity |]. right. split; [intros [] | reflexivity].
  - cbn [map fst] in Hnodup. apply NoDup_cons in Hnodup as [Hfresh Hnodup].
    rewrite list_elem_of_In in Hfresh.
    destruct (decide (v = vibe)) as [->|Hne].
    + destruct Hin as [Heq|Hin].
      * injection Heq as <- <-. right. split; [reflexivity |].
        left. exists tids. split; [now left | reflexivity].
      * left. split; [|now right].
        intros ->. apply Hfresh. apply in_map_iff. exists (vibe, tids'). auto.
    + destruct Hin as [Heq|Hin].
      * injection Heq as <- <-. left. split; [exact Hne | now left].
      * destruct (IH Hnodup v' tids' Hin)
          as [[Hne' Hin']|[-> [(tids0 & Hin0 & ->)|[Hnot ->]]]].
        -- left. split; [exact Hne' | now right].
        -- right. split; [reflexivity |]. left. exists tids0.
           split; [now right | reflexivity].
        -- right. split; [reflexivity |]. right. split; [|reflexivity].
           intros [Heq|Hin']; [cbn in Heq; congruence | now apply Hnot].
Qed.

Lemma ids_with_vibe_snoc (vibe : string) log (e : log_entry) :
  ids_with_vibe vibe (log ++ [e]) =
  ids_with_vibe vibe log ++
  (if decide (entry_vibe e = vibe) then [entry_id e] else []).
Proof.
  unfold ids_with_vibe. rewrite List.filter_app, map_app. f_equal.
  cbn [List.filter]. unfold bool_decide.
  now destruct (decide_rel eq (entry_vibe e) vibe), (decide (entry_vibe e = vibe)).
Qed.

Lemma ids_with_vibe_none (vibe : string) log :
  (forall e, In e log -> entry_vibe e <> vibe) -> ids_with_vibe vibe log = [].
Proof.
  unfold ids_with_vibe. induction log as [|e log IH]; intros Hall;
    [reflexivity |].
  cbn [List.filter]. rewrite bool_decide_eq_false_2 by (apply Hall; now left).
  apply IH. intros e' Hin. apply Hall. now right.
Qed.

Lemma grouped_nil : grouped [] [].
Proof.
  split; [apply NoDup_nil_2 |]. split; [intros vibe tids [] | intros e []].
Qed.

Lemma grouped_append groups log (vibe tid : string) (name : option string) :
  grouped groups log ->
  grouped (append_to_group vibe tid groups)
    (log ++ [LogEntry tid name vibe]).
Proof.
  intros (Hnodup & Hlists & Hkeys).
  destruct (append_to_group_keys vibe tid groups) as [Kin Knot].
  split; [|split].
  - destruct (in_dec string_dec vibe (map fst groups)) as [Hin|Hnot].
    + now rewrite Kin.
    + rewrite Knot by assumption. apply NoDup_app. split; [exact Hnodup |].
      split; [|apply NoDup_singleton].
      intros x Hx Hx'. apply list_elem_of_singleton in Hx'. subst x.
      apply Hnot. now apply list_elem_of_In.
  - intros v' tids' Hin. rewrite ids_with_vibe_snoc. cbn [entry_vibe entry_id].
    destruct (append_to_group_In vibe tid groups Hnodup v' tids' Hin)
      as [[Hne Hin']|[-> [(tids0 & Hin0 & ->)|[Hnot ->]]]].
    + destruct (Hlists v' tids' Hin') as [Hnonempty ->].
      destruct (decide (vibe = v')); [congruence |].
      rewrite app_nil_r. auto.
    + destruct (Hlists vibe tids0 Hin0) as [_ ->].
      destruct (decide (vibe = vibe)); [|congruence].
      split; [now destruct (ids_with_vibe vibe log) | reflexivity].
    + destruct (decide (vibe = vibe)); [|congruence].
      rewrite ids_with_vibe_none; [split; [discriminate | reflexivity] |].
      intros e0 Hin' Heq. apply Hnot. rewrite <- Heq. now apply Hkeys.
  - intros e Hin. apply in_app_or in Hin as [Hin|[<-|[]]].
    + apply Hkeys in Hin.
      destruct (in_dec string_dec vibe (map fst groups)) as [Hv|Hv].
      * now rewrite Kin.
      * rewrite Knot by assumption. apply in_or_app. now left.
    + cbn [entry_vibe].
      destruct (in_dec string_dec vibe (map fst groups)) as [Hv|Hv].
      * now rewrite Kin.
      * rewrite Knot by assumption. apply in_or_app. right. now left.
Qed.

Lemma classify_vibe_returns_vibe features prompt key openai l :
  fst (classify_vibe features prompt key openai) = Ok l -> In l VIBES.
Proof.
  destruct features as [fv fe fd ft fg].
  unfold classify_vibe.
  cbn [valence energy danceability tempo genres].
  generalize (get fv (PNum (Int 0))) (get fe (PNum (Int 0)))
    (get fd (PNum (Int 0))) (get ft (PNum (Int 0))).
  intros [|v] [|e] [|d] [|t];
    unfold gt, ge, lt, le, cmp, and_, mbind, py_bind;
    split_ifs; cbn [fst];
    intros H; try discriminate H; injection H as <-; simpl; tauto.
Qed.

Lemma classify_tracks_run liked_tracks features prompt key :
  forall openai groups log,
    grouped groups log ->
    (forall tid, In tid (track_ids_of liked_tracks) ->
       exists l, label_of (features_get features tid) prompt key None = Ok l) ->
    exists groups' log' openai',
      classify_tracks liked_tracks features prompt key openai groups log =
        (Ok (groups', log'), openai') /\
      grouped groups' log' /\
      map entry_id log' = map entry_id log ++ track_ids_of liked_tracks /\
      (forall e, In e log' ->
         In e log \/
         label_of (features_get features (entry_id e)) prompt key None =
           Ok (entry_vibe e)).
Proof.
  induction liked_tracks as [|item rest IH]; intros openai groups log Hg Hall.
  - exists groups, log, openai. cbn. rewrite app_nil_r. auto.
  - cbn [classify_tracks]. rewrite track_ids_of_cons in Hall |- *.
    destruct (track item) as [tr|].
    + destruct (Hall (track_id tr)) as [l Hl]; [now left |].
      unfold label_of in Hl.
      rewrite (classify_vibe_label_any_module _ _ _ None openai) in Hl.
      destruct (classify_vibe (features_get features (track_id tr)) prompt key
                  openai) as [result openai1] eqn:Hcv.
      cbn [fst] in Hl. subst result.
      destruct (IH openai1 (append_to_group l (track_id tr) groups)
                  (log ++ [LogEntry (track_id tr) (track_name tr) l]))
        as (groups' & log' & openai' & Hrun & Hg' & Hids & Hlabels).
      { now apply grouped_append. }
      { intros tid Hin. apply Hall. now right. }
      exists groups', log', openai'. split; [exact Hrun |].
      split; [exact Hg' |]. split.
      * rewrite Hids, map_app. cbn [map entry_id]. now rewrite <- app_assoc.
      * intros e Hin. destruct (Hlabels e Hin) as [Hold|Hnew]; [|now right].
        apply in_app_or in Hold as [Hold|[<-|[]]]; [now left |].
        right. cbn [entry_id entry_vibe]. unfold label_of.
        rewrite (classify_vibe_label_any_module _ _ _ None openai).
        now rewrite Hcv.
    + now apply IH.
Qed.

(** X10.  The loop of [main] over the fetched list.  When the classifier
    returns a label for every track of the list, the loop returns: the log
    has one entry per entry with a track object, in list order, each with
    the label the classifier gives to [features.get(tid, {})], a label of
    [VIBES]; the grouping has one list per label that occurs, none of
    them empty, and each list holds the identifiers logged with its label,
    in log order. *)
Theorem grouping_follows_log liked_tracks features prompt key openai :
  (forall tid, In tid (track_ids_of liked_tracks) ->
     exists l, label_of (features_get features tid) prompt key None = Ok l) ->
  exists groups log openai',
    classify_tracks liked_tracks features prompt key openai [] [] =
      (Ok (groups, log), openai') /\
    map entry_id log = track_ids_of liked_tracks /\
    Forall (fun e =>
              label_of (features_get features (entry_id e)) prompt key None =
                Ok (entry_vibe e) /\
              In (entry_vibe e) VIBES) log /\
    NoDup (map fst groups) /\
    (forall vibe tids,
       In (vibe, tids) groups ->
       tids <> [] /\ tids = ids_with_vibe vibe log) /\
    (forall e, In e log -> In (entry_vibe e) (map fst groups)).
Proof.
  intros Hall.
  destruct (classify_tracks_run liked_tracks features prompt key openai [] []
              grouped_nil Hall)
    as (groups & log & openai' & Hrun & (Hnodup & Hlists & Hkeys) & Hids & Hlabels).
  exists groups, log, openai'. split; [exact Hrun |].
  split; [exact Hids |]. split; [|auto].
  apply List.Forall_forall. intros e Hin.
  destruct (Hlabels e Hin) as [[]|Hl]. split; [exact Hl |].
  exact (classify_vibe_returns_vibe _ prompt key None _ Hl).
Qed.

(** X10, witness: three tracks and no feature data at all. *)
Lemma grouping_follows_log_witness :
  exists groups log openai',
    classify_tracks mixed_tracks ∅ None None None [] [] =
      (Ok (groups, log), openai') /\
    map entry_id log = ["t1"; "t2"; "t3"]%string.
Proof.
  destruct (grouping_follows_log mixed_tracks ∅ None None None)
    as (groups & log & openai' & Hrun & Hids & _).
  - intros tid _. exists "Sad Bops"%string. reflexivity.
  - exists groups, log, openai'. split; [exact Hrun | exact Hids].
Defined.

Lemma classify_tracks_ok liked_tracks features prompt key :
  forall openai groups log groups' log' openai',
    grouped groups log ->
    classify_tracks liked_tracks features prompt key openai groups log =
      (Ok (groups', log'), openai') ->
    grouped groups' log' /\
    map entry_id log' = map entry_id log ++ track_ids_of liked_tracks /\
    (forall e, In e log' ->
       In e log \/
       label_of (features_get features (entry_id e)) prompt key None =
         Ok (entry_vibe e)).
Proof.
  induction liked_tracks as [|item rest IH];
    intros openai groups log groups' log' openai' Hg Hrun.
  - cbn in Hrun. injection Hrun as <- <- <-. rewrite app_nil_r. auto.
  - cbn [classify_tracks] in Hrun. rewrite track_ids_of_cons.
    destruct (track item) as [tr|]; [|exact (IH _ _ _ _ _ _ Hg Hrun)].
    destruct (classify_vibe (features_get features (track_id tr)) prompt key
                openai) as [[l|x] openai1] eqn:Hcv; [|discriminate Hrun].
    apply IH in Hrun; [|now apply grouped_append].
    destruct Hrun as (Hg' & Hids & Hlabels).
    split; [exact Hg' |]. split.
    + rewrite Hids, map_app. cbn [map entry_id]. now rewrite <- app_assoc.
    + intros e Hin. destruct (Hlabels e Hin) as [Hold|Hnew]; [|now right].
      apply in_app_or in Hold as [Hold|[<-|[]]]; [now left |].
      right. cbn [entry_id entry_vibe]. unfold label_of.
      rewrite (classify_vibe_label_any_module _ _ _ None openai).
      now rewrite Hcv.
Qed.

Lemma nonempty_groups_all groups :
  (forall vibe tids, In (vibe, tids) groups -> tids <> []) ->
  nonempty_groups groups = groups.
Proof.
  unfold nonempty_groups. induction groups as [|[v tids] groups IH];
    intros Hall; [reflexivity |].
  cbn [List.filter snd]. destruct tids as [|t ts].
  - exfalso. apply (Hall v []); [now left | reflexivity].
  - f_equal. apply IH. intros vibe tids Hin. apply (Hall vibe). now right.
Qed.

Section WholeRun.

Context {Sp : Type} `{Spotify Sp}.

(** X11.  A run that ends well, read off the recorded calls.  The calls come in
    four stages and there are no others: the page requests of the fetch;
    the feature requests for the sub-batches of the fetched track
    identifiers; the artist requests for the sub-batches of their
    first-artist identifiers; and, for each label that was given to some
    track, one request creating its playlist followed by one adding its
    tracks.  The log counts the fetched entries that have a track object
    and lists them in fetch order, each under a label of [VIBES]; each
    playlist receives exactly the identifiers logged with its label, in
    log order, and the log maps the label to the identifier of that
    playlist. *)
Theorem run_is_staged (sp : Sp) (user_id : string)
    (prompt openai_key : option string) (openai openai' : option openai_module)
    (fuel : nat) (data : log_data) (r' : recorded Sp) :
  (1000 < fuel)%nat ->
  main_body fuel (Recorded sp []) user_id prompt openai_key openai =
    Some (Ok (data, r'), openai') ->
  exists reqs groups pids,
    calls r' =
      map record_request reqs ++
      map AudioFeatures (batches 100 (track_ids_of (all_returned reqs))) ++
      map Artists (batches 50 (artist_ids_of (all_returned reqs))) ++
      concat (map (materialize_calls user_id) (combine groups pids)) /\
    length pids = length groups /\
    tracks_processed data = length (track_ids_of (all_returned reqs)) /\
    map entry_id (entries data) = track_ids_of (all_returned reqs) /\
    Forall (fun e => In (entry_vibe e) VIBES) (entries data) /\
    grouped groups (entries data) /\
    (forall vibe tids pid,
       In (vibe, tids, pid) (combine groups pids) ->
       playlists data !! vibe = Some pid).
Proof.
  intros Hfuel Hrun. unfold main_body in Hrun.
  destruct (fetch_liked_songs_recorded sp 1000 fuel)
    as (liked & r1 & Hfetch & Hcalls1 & Hliked & _ & _); [simpl; lia |].
  rewrite Hfetch in Hrun. injection Hrun as Hrun.
  destruct (get_audio_features r1 liked) as [[features r2]|e] eqn:Hagg;
    [|discriminate Hrun].
  destruct (classify_tracks liked features prompt openai_key openai [] [])
    as [[[groups log]|e] openai1] eqn:Hcls; [|discriminate Hrun].
  destruct (classify_tracks_ok _ _ _ _ _ _ _ _ _ _ grouped_nil Hcls)
    as (Hgrouped & Hids & Hlabels).
  cbn [map app] in Hids.
  pose proof Hgrouped as (Hnodup & Hlists & Hkeys).
  destruct (create_loop_calls user_id groups r2 ∅)
    as (ids & r3 & pids & Hcreate & Hlen & Hcalls3 & _ & Hvals).
  unfold create_playlists in Hrun. rewrite Hcreate in Hrun.
  injection Hrun as <- <- <-.
  rewrite nonempty_groups_all in Hlen, Hcalls3, Hvals
    by (intros vibe tids Hin; now destruct (Hlists vibe tids Hin)).
  apply get_audio_features_calls in Hagg.
  exists (page_requests (calls r1)), groups, pids.
  rewrite <- Hliked. cbn [tracks_processed playlists entries].
  split; [|split; [exact Hlen |]].
  { rewrite Hcalls3, Hagg, <- Hcalls1, <- !app_assoc. reflexivity. }
  split; [rewrite <- Hids; now rewrite length_map |].
  split; [exact Hids |]. split; [|split; [exact Hgrouped | exact (Hvals Hnodup)]].
  apply List.Forall_forall. intros e Hin.
  destruct (Hlabels e Hin) as [[]|Hl].
  exact (classify_vibe_returns_vibe _ prompt openai_key None _ Hl).
Qed.

End WholeRun.

(** X11, witness: a run on the mixed library. *)
Lemma run_is_staged_witness :
  exists data r' openai',
    main_body 1001 (Recorded mixed_library []) "user" None None None =
      Some (Ok (data, r'), openai') /\
    tracks_processed data = length (entries data) /\
    Forall (fun e => In (entry_vibe e) VIBES) (entries data).
Proof.
  destruct (main_body 1001 (Recorded mixed_library []) "user" None None None)
    as [[[[data r']|e] openai']|] eqn:Hrun;
    [| vm_compute in Hrun; discriminate Hrun
     | vm_compute in Hrun; discriminate Hrun].
  exists data, r', openai'. split; [reflexivity |].
  assert (Hfuel : (1000 < 1001)%nat) by lia.
  destruct (run_is_staged mixed_library "user" None None None openai' 1001
              data r' Hfuel Hrun)
    as (reqs & groups & pids & _ & _ & Hcount & Hids & Hvibes & _).
  split; [|exact Hvibes].
  now rewrite Hcount, <- Hids, length_map.
Defined.

Section RunEndsWell.

Context {Sp : Type} `{Spotify Sp}.


End RunEndsWell.


Section EmptyLibrary.

Context {Sp : Type} `{Spotify Sp}.

(** X13.  An empty library is no error.  When the first page comes back with no
    items, the run ends well with an empty log: no track processed, no
    playlist, and the page request is the only call made: no feature
    request, no artist request, nothing created.  The [openai] module is
    left as it was. *)
Theorem empty_library_makes_no_playlist (sp : Sp) (user_id : string)
    (prompt openai_key : option string) (openai : option openai_module)
    (fuel : nat) :
  (0 < fuel)%nat ->
  get (items (fst (current_user_saved_tracks sp 50 0))) [] = [] ->
  main_body fuel (Recorded sp []) user_id prompt openai_key openai =
    Some (Ok (LogData 0 ∅ [],
              Recorded (snd (current_user_saved_tracks sp 50 0))
                [SavedTracks 50 0 []]), openai).
Proof.
  intros Hfuel Hempty. destruct fuel as [|fuel]; [lia |].
  unfold main_body, fetch_liked_songs. cbn [fetch_loop length].
  change (Z.of_nat 0 <? 1000) with true. cbn match.
  change (Z.min 50 (1000 - Z.of_nat 0)) with 50.
  cbn [current_user_saved_tracks recorded_spotify service calls].
  destruct (current_user_saved_tracks sp 50 0) as [batch s].
  cbn [fst snd] in Hempty |- *. rewrite Hempty. cbn [app].
  reflexivity.
Qed.

End EmptyLibrary.

(** X13, witness: a library with no saved track. *)
Lemma empty_library_makes_no_playlist_witness :
  main_body 1001 (Recorded (Library [] [] []) []) "user" None None None =
  Some (Ok (LogData 0 ∅ [],
            Recorded (Library [] [] []) [SavedTracks 50 0 []]), None).
Proof.
  assert (Hfuel : (0 < 1001)%nat) by lia.
  exact (empty_library_makes_no_playlist (Library [] [] []) "user" None None
           None 1001 Hfuel eq_refl).
Defined.
